(** * remix-params-helper: the parameter coercion engine of [src/helper.ts]

    A shallow embedding of [parseParams], [processDef], [getParamsInternal]
    and [getParamsOrFail], with the properties of the specification stated
    and settled over it.

    What the TypeScript code leaves to its environment is kept abstract in a
    [Host]: the numeric and date parsers of the JavaScript runtime
    ([Number], [Date.parse]), [JSON.stringify], and the members that
    instances of the zod classes carry.  The validator is the [safeParse]
    method of the schema object that the caller passes in. *)

From Stdlib Require Import String Ascii List Bool.
From Stdlib Require Import DecimalString QArith.
Close Scope Q_scope.
Import ListNotations.
Open Scope list_scope.
Open Scope string_scope.

Set Implicit Arguments.
Set Warnings "-register-all".

(* ================================================================== *)
(** ** JavaScript strings: the four methods the engine calls *)

(** [s.slice(n)] for [0 <= n]. *)
Fixpoint skip (n : nat) (s : string) : string :=
  match n, s with
  | O, _ => s
  | S _, EmptyString => EmptyString
  | S n', String _ s' => skip n' s'
  end.

(** [s.startsWith(p)]. *)
Fixpoint startsWith (p s : string) : bool :=
  match p, s with
  | EmptyString, _ => true
  | String _ _, EmptyString => false
  | String a p', String b s' => Ascii.eqb a b && startsWith p' s'
  end.

(** [s.includes(sub)]. *)
Fixpoint includes (sub s : string) : bool :=
  if startsWith sub s then true
  else match s with
       | EmptyString => false
       | String _ s' => includes sub s'
       end.

(** [s.replace(pattern, replacement)] with a string pattern: the first
    occurrence only, and [s] itself when there is none. *)
Fixpoint replace (pattern replacement s : string) : string :=
  if startsWith pattern s then replacement ++ skip (String.length pattern) s
  else match s with
       | EmptyString => EmptyString
       | String c s' => String c (replace pattern replacement s')
       end.

(** [s.split(sep)] for a one-character separator: never the empty list. *)
Fixpoint split (sep : ascii) (s : string) : list string :=
  match s with
  | EmptyString => [EmptyString]
  | String c s' =>
      if Ascii.eqb c sep then EmptyString :: split sep s'
      else match split sep s' with
           | [] => [String c EmptyString]
           | part :: parts => String c part :: parts
           end
  end.

(** [parts.join(sep)]. *)
Fixpoint join (sep : string) (parts : list string) : string :=
  match parts with
  | [] => EmptyString
  | [part] => part
  | part :: parts' => part ++ sep ++ join sep parts'
  end.

Definition dot : ascii := "."%char.

(* ================================================================== *)
(** ** Schema nodes *)

(** The zod classes the engine tests with [instanceof].  [ZodOther] stands
    for every other zod class (ZodNullable, ZodAny, ZodBigInt, ...), with
    the [_def.typeName] it reports.  The [shape] of a [ZodObject] lists its
    own fields; looking a name up takes the first entry of that name.
    [ZodObject_null] is a ZodObject whose [shape] is [null], as
    [z.object(null)] builds it: the schema parameter of the engine is typed
    [any], and line 36 tests for it.  What a wrapper wraps is a node. *)
Inductive ZodType : Type :=
| ZodString
| ZodLiteral (value : string)
| ZodNumber
| ZodDate
| ZodBoolean
| ZodNativeEnum (values : list string)
| ZodEnum (values : list string)
| ZodOptional (innerType : ZodType)
| ZodDefault (innerType : ZodType)
| ZodArray (element : ZodType)
| ZodEffects (schema : ZodType)
| ZodObject (shape : list (string * ZodType))
| ZodObject_null
| ZodUnion (options : list ZodType)
| ZodOther (typeName : string).

Definition typeName_of (def : ZodType) : string :=
  match def with
  | ZodString => "ZodString"
  | ZodLiteral _ => "ZodLiteral"
  | ZodNumber => "ZodNumber"
  | ZodDate => "ZodDate"
  | ZodBoolean => "ZodBoolean"
  | ZodNativeEnum _ => "ZodNativeEnum"
  | ZodEnum _ => "ZodEnum"
  | ZodOptional _ => "ZodOptional"
  | ZodDefault _ => "ZodDefault"
  | ZodArray _ => "ZodArray"
  | ZodEffects _ => "ZodEffects"
  | ZodObject _ | ZodObject_null => "ZodObject"
  | ZodUnion _ => "ZodUnion"
  | ZodOther name => name
  end.

Definition instanceof_ZodObject (z : ZodType) : bool :=
  match z with ZodObject _ | ZodObject_null => true | _ => false end.

Definition instanceof_ZodEffects (z : ZodType) : bool :=
  match z with ZodEffects _ => true | _ => false end.

(* ================================================================== *)
(** ** Outcomes of a call *)

Inductive Exn : Type :=
| Error (message : string)
| TypeError (message : string).

(** A call returns, throws, or [Escapes]: it goes on inside an object of the
    runtime or of the zod library (a member of [Object.prototype], a method
    of a schema instance, a property of a string), where what happens is
    decided by code that is not part of this repository, and where it can
    leave changes that later calls see.  Nothing is claimed about a call
    that escapes, nor about what follows it. *)
Inductive Outcome (A : Type) : Type :=
| Returns (a : A)
| Throws (e : Exn)
| Escapes.

Arguments Throws {A} e.
Arguments Escapes {A}.

Definition bind {A B : Type} (c : Outcome A) (k : A -> Outcome B) : Outcome B :=
  match c with
  | Returns a => k a
  | Throws e => Throws e
  | Escapes => Escapes
  end.

Notation "x <- c ;; k" := (bind c (fun x => k))
  (at level 61, c at next level, right associativity).

(** A [for ... of] loop whose body updates one piece of state. *)
Fixpoint for_of {A S : Type} (body : S -> A -> Outcome S) (items : list A) (s : S)
  : Outcome S :=
  match items with
  | [] => Returns s
  | item :: items' => s' <- body s item ;; for_of body items' s'
  end.

(* ================================================================== *)
(** ** Plain objects *)

(** The own properties of a plain object, in insertion order. *)
Fixpoint own {A : Type} (o : list (string * A)) (k : string) : option A :=
  match o with
  | [] => None
  | (k', v) :: o' => if String.eqb k' k then Some v else own o' k
  end.

(** Creating or overwriting an own property: an existing property keeps its
    place. *)
Fixpoint set {A : Type} (o : list (string * A)) (k : string) (v : A)
  : list (string * A) :=
  match o with
  | [] => [(k, v)]
  | (k', v') :: o' =>
      if String.eqb k' k then (k', v) :: o' else (k', v') :: set o' k v
  end.

(** The property names every plain object inherits from [Object.prototype]. *)
Definition Object_prototype : list string :=
  [ "constructor"; "__defineGetter__"; "__defineSetter__"; "hasOwnProperty";
    "__lookupGetter__"; "__lookupSetter__"; "isPrototypeOf";
    "propertyIsEnumerable"; "toString"; "valueOf"; "__proto__";
    "toLocaleString" ].

Definition inherited (k : string) : bool :=
  existsb (String.eqb k) Object_prototype.

(** What [o[k]] evaluates to on a plain object: an own property, a built-in
    member found along the prototype chain (a function, or
    [Object.prototype] itself for [__proto__]; none of them [undefined],
    none of them an array), or [undefined]. *)
Inductive Read (A : Type) : Type :=
| Own (v : A)
| Builtin
| Undefined.

Arguments Builtin {A}.
Arguments Undefined {A}.

Definition get {A : Type} (o : list (string * A)) (k : string) : Read A :=
  match own o k with
  | Some v => Own v
  | None => if inherited k then Builtin else Undefined
  end.

(** [o[k]] looked up for a continuation: [found] on the own property of that
    name, [missing] when there is none. *)
Definition with_own {A R : Type} (k : string) (found : A -> R) (missing : R)
  : list (string * A) -> R :=
  fix lookup (o : list (string * A)) : R :=
    match o with
    | [] => missing
    | (k', v) :: o' => if String.eqb k' k then found v else lookup o'
    end.

(* ================================================================== *)
(** ** The host: runtime and library *)

(** An entry of the error mapping: one message, or the array that replaces
    it when a second message arrives. *)
Inductive ErrorEntry : Type :=
| Message (message : string)
| Messages (messages : list string).

Definition Errors : Type := list (string * ErrorEntry).

(** - [number], [date]: the values of [Number(value)] other than NaN, and
      of [new Date(ms)];
    - [Number value], [Date_parse value]: [None] where JavaScript's [isNaN]
      holds of the result;
    - [zod_member z k]: whether [k] names a member (own or of its class) of
      the zod instance [z];
    - [JSON_stringify]: [JSON.stringify] on an error mapping;
    - [String_of_number], [toISOString]: the text of a number and of a date
      (no function of the engine calls them; re-serialising coerced output
      does). *)
Class Host : Type := {
  number : Type;
  date : Type;
  Number : string -> option number;
  Date_parse : string -> option date;
  zod_member : ZodType -> string -> bool;
  JSON_stringify : Errors -> string;
  String_of_number : number -> string;
  toISOString : date -> string
}.

(** [Boolean(value)] on a string. *)
Definition Boolean (value : string) : bool := negb (value =? "").

Section Engine.

Context {H : Host}.

(* ================================================================== *)
(** ** Coerced output *)

Inductive Value : Type :=
| VString (s : string)
| VNumber (n : number)
| VBoolean (b : bool)
| VDate (d : date)
| VObject (props : list (string * Value))
| VArray (items : list Value).

Definition Obj : Type := list (string * Value).

(** [o[key] = v].  The name [__proto__] is an accessor of
    [Object.prototype] unless [o] has an own property of that name: its
    setter ignores a primitive and re-parents [o] on an object. *)
Definition assign (o : Obj) (key : string) (v : Value) : Outcome Obj :=
  match own o key with
  | Some _ => Returns (set o key v)
  | None =>
      if key =? "__proto__" then
        match v with
        | VString _ | VNumber _ | VBoolean _ => Returns o
        | VDate _ | VObject _ | VArray _ => Escapes
        end
      else Returns (set o key v)
  end.

(* ================================================================== *)
(** ** [processDef] *)

(** Lines 240-244: push onto the array at [o[key]], or assign. *)
Definition store (o : Obj) (key : string) (parsedValue : Value) : Outcome Obj :=
  match get o key with
  | Own (VArray items) => Returns (set o key (VArray (items ++ [parsedValue])))
  | _ => assign o key parsedValue
  end.

(** Lines 228-230: an array is created at [o[key]] when nothing is there. *)
Definition init_array (o : Obj) (key : string) : Obj :=
  match get o key with
  | Undefined => set o key (VArray [])
  | _ => o
  end.

Fixpoint processDef (def : ZodType) (o : Obj) (key value : string) {struct def}
  : Outcome Obj :=
  match def with
  | ZodString | ZodLiteral _ => store o key (VString value)
  | ZodNumber =>
      store o key (match Number value with
                   | None => VString value
                   | Some num => VNumber num
                   end)
  | ZodDate =>
      store o key (match Date_parse value with
                   | None => VString value
                   | Some date => VDate date
                   end)
  | ZodBoolean =>
      store o key (VBoolean (if value =? "true" then true
                             else if value =? "false" then false
                             else Boolean value))
  | ZodNativeEnum _ | ZodEnum _ => store o key (VString value)
  | ZodOptional innerType | ZodDefault innerType =>
      processDef innerType o key value
  | ZodArray element =>
      processDef element (init_array o key) key value
  | ZodEffects schema => processDef schema o key value
  | _ =>
      Throws (Error ("Unexpected type " ++ typeName_of def ++ " for key " ++ key))
  end.

(** [processDef] in two parts, for stating what it does: the node at which
    the recursion through Optional, Default, Array and Effects ends, whether
    it went through an Array, and the [parsedValue] of lines 209-221 at that
    node ([None] where line 238 throws). *)
Fixpoint leaf_of (def : ZodType) : ZodType :=
  match def with
  | ZodOptional innerType | ZodDefault innerType => leaf_of innerType
  | ZodArray element => leaf_of element
  | ZodEffects schema => leaf_of schema
  | _ => def
  end.

Fixpoint through_array (def : ZodType) : bool :=
  match def with
  | ZodOptional innerType | ZodDefault innerType => through_array innerType
  | ZodArray _ => true
  | ZodEffects schema => through_array schema
  | _ => false
  end.

Definition coerceLeaf (leaf : ZodType) (value : string) : option Value :=
  match leaf with
  | ZodString | ZodLiteral _ | ZodNativeEnum _ | ZodEnum _ => Some (VString value)
  | ZodNumber =>
      Some (match Number value with
            | None => VString value
            | Some num => VNumber num
            end)
  | ZodDate =>
      Some (match Date_parse value with
            | None => VString value
            | Some date => VDate date
            end)
  | ZodBoolean =>
      Some (VBoolean (if value =? "true" then true
                      else if value =? "false" then false
                      else Boolean value))
  | _ => None
  end.

(** [processDef] handed a value that is no zod instance (a built-in found
    under an inherited name): every [instanceof] test fails and evaluating
    [def._def.typeName] for the message raises a TypeError. *)
Definition processDef_builtin : Outcome Obj :=
  Throws (TypeError "Cannot read properties of undefined (reading 'typeName')").

(* ================================================================== *)
(** ** [parseParams] *)

(** The value of [shape] when the loop of lines 29-39 is left: the field
    mapping of a ZodObject, or a zod instance that is neither a ZodObject
    nor a ZodEffects. *)
Inductive Shape : Type :=
| ShapeRecord (fields : list (string * ZodType))
| ShapeInstance (z : ZodType).

(** Lines 56-60: the name under which the field is looked up.  ([isArray]
    is set there and read nowhere.) *)
Definition strip_marker (key : string) : string :=
  if includes "[]" key then replace "[]" "" key else key.

(** Lines 28-39 on their own. *)
Fixpoint find_shape (key : string) (shape : ZodType) {struct shape} : Outcome Shape :=
  if instanceof_ZodObject shape || instanceof_ZodEffects shape then
    match shape with
    | ZodObject fields => Returns (ShapeRecord fields)
    | ZodEffects schema => find_shape key schema
    | _ => Throws (Error ("Could not find shape for key " ++ key))
    end
  else Returns (ShapeInstance shape).

(** Whether the loop of lines 29-39 ends at [null]: the schema is, under
    its Effect wrappers, an Object whose shape is [null]. *)
Fixpoint no_shape (schema : ZodType) : bool :=
  match schema with
  | ZodObject_null => true
  | ZodEffects inner => no_shape inner
  | _ => false
  end.

(** [parentProp in shape]. *)
Definition in_shape (shape : Shape) (k : string) : bool :=
  match shape with
  | ShapeRecord fields =>
      match own fields k with Some _ => true | None => inherited k end
  | ShapeInstance z => zod_member z k || inherited k
  end.

(** Lines 56-64 for a shape that is a zod instance: [shape[key]] is a member
    of the instance, a built-in, or [undefined]. *)
Definition leaf_instance (z : ZodType) (o : Obj) (key : string) : Outcome Obj :=
  let isArray := includes "[]" key in
  let key := strip_marker key in
  if zod_member z key then Escapes
  else if inherited key then processDef_builtin
  else Returns o.

(** Lines 48-55 for a shape that is a zod instance. *)
Definition nested_instance (z : ZodType) (o : Obj) (key : string) : Outcome Obj :=
  match split dot key with
  | [] => Returns o
  | parentProp :: rest =>
      match get o parentProp with
      | Builtin => Escapes
      | Undefined =>
          let o1 := set o parentProp (VObject []) in
          if in_shape (ShapeInstance z) parentProp then Escapes else Returns o1
      | Own _ =>
          if in_shape (ShapeInstance z) parentProp then Escapes else Returns o
      end
  end.

(** [parseParams], by recursion on the schema.  A turn of the loop of lines
    29-39 on a ZodEffects is the call on its inner schema, since nothing
    precedes the loop; on a ZodObject the loop ends with its field mapping,
    and lines 48-64 follow at once (a Union is not a mapping).  The
    [null] that line 36 tests for, with its throw, is the last branch
    there: the shape of a [ZodObject_null].  On any other node the loop is
    not entered.  [parseParams_eq] below states the function in the order of
    the source: the loop, the fan-out, then lines 48-64 on the shape found.

    On a dotted key whose first segment names a member of
    [Object.prototype] that the output does not shadow ([Builtin]), line 50
    reads that member and lines 51-52 go on inside it: inside
    [Object.prototype] itself for [__proto__], where line 50 can create a
    property that every object inherits from then on.  The code does return
    from there; what it has done is outside the output, and [Escapes] stands
    for it, for this call and for the calls that follow it in the loop of
    [getParamsInternal]. *)
Fixpoint parseParams (o : Obj) (schema : ZodType) (key value : string) {struct schema}
  : Outcome Obj :=
  if instanceof_ZodObject schema || instanceof_ZodEffects schema then
    match schema with
    | ZodEffects inner => parseParams o inner key value
    | ZodObject shape =>
        if includes "." key then
          match split dot key with
          | [] => Returns o
          | parentProp :: rest =>
              let descend (o1 : Obj) (child : Value) : Outcome Obj :=
                if in_shape (ShapeRecord shape) parentProp then
                  with_own parentProp
                    (fun field =>
                       match child with
                       | VObject props =>
                           props' <- parseParams props field (join "." rest) value ;;
                           Returns (set o1 parentProp (VObject props'))
                       | _ => Escapes
                       end)
                    Escapes shape
                else Returns o1 in
              match get o parentProp with
              | Builtin => Escapes
              | Undefined => descend (set o parentProp (VObject [])) (VObject [])
              | Own child => descend o child
              end
          end
        else
          let isArray := includes "[]" key in
          let key := strip_marker key in
          with_own key
            (fun def => processDef def o key value)
            (if inherited key then processDef_builtin else Returns o)
            shape
    | _ => Throws (Error ("Could not find shape for key " ++ key))
    end
  else
    match schema with
    | ZodUnion options =>
        for_of (fun o option => parseParams o option key value) options o
    | _ =>
        if includes "." key then nested_instance schema o key
        else leaf_instance schema o key
    end.

(** Lines 51-53, with the function called on line 52 as [recur]: [o1] is
    the object after line 50 and [child] its [o1[parentProp]]. *)
Definition descend (recur : Obj -> ZodType -> string -> string -> Outcome Obj)
  (shape : Shape) (parentProp : string) (rest : list string) (value : string)
  (o1 : Obj) (child : Value) : Outcome Obj :=
  if in_shape shape parentProp then
    match shape with
    | ShapeRecord fields =>
        match own fields parentProp, child with
        | Some field, VObject props =>
            props' <- recur props field (join "." rest) value ;;
            Returns (set o1 parentProp (VObject props'))
        | _, _ => Escapes
        end
    | ShapeInstance _ => Escapes
    end
  else Returns o1.

(** Lines 48-64 for the value of [shape] that the loop found. *)
Definition route (recur : Obj -> ZodType -> string -> string -> Outcome Obj)
  (shape : Shape) (o : Obj) (key value : string) : Outcome Obj :=
  if includes "." key then
    match split dot key with
    | [] => Returns o
    | parentProp :: rest =>
        match get o parentProp with
        | Builtin => Escapes
        | Undefined =>
            descend recur shape parentProp rest value
              (set o parentProp (VObject [])) (VObject [])
        | Own child => descend recur shape parentProp rest value o child
        end
    end
  else
    let isArray := includes "[]" key in
    let key := strip_marker key in
    match shape with
    | ShapeRecord fields =>
        match own fields key with
        | Some def => processDef def o key value
        | None => if inherited key then processDef_builtin else Returns o
        end
    | ShapeInstance z =>
        if zod_member z key then Escapes
        else if inherited key then processDef_builtin
        else Returns o
    end.

(* ================================================================== *)
(** ** [getParamsInternal] and its wrappers *)

(** A segment of an issue's [path]: a field name or an array index. *)
Inductive PathSegment : Type :=
| PString (s : string)
| PNumber (n : nat).

(** A validator issue; of its fields, lines 105-113 use [message] and
    [path] only. *)
Record ZodIssue : Type := { message : string; path : list PathSegment }.

Inductive SafeParseReturn : Type :=
| SafeParseSuccess (data : Value)
| SafeParseError (issues : list ZodIssue).

(** The schema object handed to the exported functions: its structure, which
    the engine walks, and its own [safeParse] method, which never throws. *)
Record Schema : Type := {
  zod : ZodType;
  safeParse : Obj -> SafeParseReturn
}.

Inductive ParseResult : Type :=
| Success (data : Value)
| Failure (errors : Errors).

(** A path segment, or the [undefined] of a missing one, used as a property
    name. *)
Definition property_key (segment : option PathSegment) : string :=
  match segment with
  | None => "undefined"
  | Some (PString s) => s
  | Some (PNumber n) => NilEmpty.string_of_uint (Nat.to_uint n)
  end.

(** Lines 94-103.  [errors.hasOwnProperty] is the inherited method only as
    long as no message was stored under that very name. *)
Definition addError (errors : Errors) (key : string) (message : string)
  : Outcome Errors :=
  match own errors "hasOwnProperty" with
  | Some _ => Throws (TypeError "errors.hasOwnProperty is not a function")
  | None =>
      match own errors key with
      | None =>
          if key =? "__proto__" then Returns errors
          else Returns (set errors key (Message message))
      | Some (Message first) =>
          Returns (set errors key (Messages [first; message]))
      | Some (Messages messages) =>
          Returns (set errors key (Messages (messages ++ [message])))
      end
  end.

(** Lines 105-113: the body of the loop over the issues.  [value[index]]
    throws when [o[key]] is [undefined]. *)
Definition record_issue (o : Obj) (errors : Errors) (issue : ZodIssue)
  : Outcome Errors :=
  let key := nth_error (path issue) 0 in
  let index := nth_error (path issue) 1 in
  let value := get o (property_key key) in
  match index, value with
  | Some _, Undefined =>
      Throws (TypeError "Cannot read properties of undefined")
  | _, _ => addError errors (property_key key) (message issue)
  end.

(** The body of the loop of lines 81-87, and the loop from an output [o]. *)
Definition step (schema : ZodType) (o : Obj) (entry : string * string)
  : Outcome Obj :=
  let '(key, value) := entry in
  if value =? "" then Returns o
  else parseParams o schema key value.

Definition run (schema : ZodType) (entries : list (string * string)) (o : Obj)
  : Outcome Obj :=
  for_of (step schema) entries o.

(** Lines 74-87: the coerced output built from the entries of [params]. *)
Definition coerce (entries : list (string * string)) (schema : ZodType)
  : Outcome Obj :=
  run schema entries [].

Definition is_array (read : option Value) : bool :=
  match read with Some (VArray _) => true | _ => false end.

Definition items_of (read : option Value) : list Value :=
  match read with Some (VArray items) => items | _ => [] end.

Definition props_of (read : option Value) : Obj :=
  match read with Some (VObject props) => props | _ => [] end.

(** The value found in the output along a path of property names. *)
Fixpoint value_at (v : Value) (names : list string) : option Value :=
  match names with
  | [] => Some v
  | a :: names' =>
      match v with
      | VObject props =>
          match own props a with
          | Some v' => value_at v' names'
          | None => None
          end
      | _ => None
      end
  end.

(** The messages of the issues whose top-level path segment is [key], in
    report order. *)
Definition messages_for (key : string) (issues : list ZodIssue) : list string :=
  map message
    (filter (fun issue => property_key (nth_error (path issue) 0) =? key) issues).

(** [entries] is [Array.from(params)] or [Object.entries(params)], with
    string values. *)
Definition getParamsInternal (entries : list (string * string)) (schema : Schema)
  : Outcome ParseResult :=
  o <- coerce entries (zod schema) ;;
  match safeParse schema o with
  | SafeParseSuccess data => Returns (Success data)
  | SafeParseError issues =>
      errors <- for_of (record_issue o) issues [] ;;
      Returns (Failure errors)
  end.

Definition getParams (params : list (string * string)) (schema : Schema)
  : Outcome ParseResult :=
  getParamsInternal params schema.

Definition getParamsOrFail (params : list (string * string)) (schema : Schema)
  : Outcome Value :=
  result <- getParamsInternal params schema ;;
  match result with
  | Failure errors => Throws (Error (JSON_stringify errors))
  | Success data => Returns data
  end.

(* ================================================================== *)
(** ** Where a pair goes *)

(** The property of the output that a pair with this key can touch: the
    first segment of a dotted key, else the key without its marker. *)
Definition target (key : string) : string :=
  if includes "." key then hd EmptyString (split dot key) else strip_marker key.

(** The values that an input sends to the field [f] of the schema it is
    parsed against, in input order: those of the pairs with a non-empty
    value whose key has no dot and, without its marker, is [f]. *)
Definition routed (f : string) (entries : list (string * string)) : list string :=
  map snd
    (filter (fun entry =>
               negb (snd entry =? "") && negb (includes "." (fst entry))
               && (strip_marker (fst entry) =? f))
            entries).

(** The pairs that an input sends below the field [a], under the keys they
    are passed on with: those with a non-empty value whose key is dotted
    with first segment [a]. *)
Definition below (a : string) (entries : list (string * string))
  : list (string * string) :=
  flat_map (fun entry =>
              if negb (snd entry =? "") && includes "." (fst entry) then
                match split dot (fst entry) with
                | parentProp :: rest =>
                    if parentProp =? a then [(join "." rest, snd entry)] else []
                | [] => []
                end
              else [])
           entries.

Fixpoint below_path (names : list string) (entries : list (string * string))
  : list (string * string) :=
  match names with
  | [] => entries
  | a :: names' => below_path names' (below a entries)
  end.

(** The field mapping that shape resolution finds, if it finds one. *)
Fixpoint fields_of (schema : ZodType) : option (list (string * ZodType)) :=
  match schema with
  | ZodObject shape => Some shape
  | ZodEffects inner => fields_of inner
  | _ => None
  end.

(** The nodes of the field [a] that a pair addressed to [a] is handed to,
    one after the other: the field [a] of the mapping that shape resolution
    finds, if it has one, and under a Union (lines 41-46) the field [a] of
    each option that has one, in the order of the options.  [None] when the
    schema, or an option of a Union, resolves to no field mapping (a Union
    without options included). *)
Definition gather (found : list (option (list ZodType))) : option (list ZodType) :=
  fold_right (fun nodes rest =>
                match nodes, rest with
                | Some nodes, Some rest => Some (nodes ++ rest)%list
                | _, _ => None
                end)
             (Some []) found.

Fixpoint carriers (a : string) (schema : ZodType) {struct schema}
  : option (list ZodType) :=
  match schema with
  | ZodObject shape =>
      Some (match own shape a with Some field => [field] | None => [] end)
  | ZodEffects inner => carriers a inner
  | ZodUnion options =>
      match options with
      | [] => None
      | _ :: _ => gather (map (carriers a) options)
      end
  | _ => None
  end.

(** The nodes of the field [f] below the fields [names]: what is below a
    field is routed to each of its nodes in turn, as to the options of a
    Union. *)
Fixpoint carriers_at (schema : ZodType) (names : list string) (f : string)
  : option (list ZodType) :=
  match names with
  | [] => carriers f schema
  | a :: names' =>
      match carriers a schema with
      | Some nodes => carriers_at (ZodUnion nodes) names' f
      | None => None
      end
  end.

(** Whether a pair under this key can lead the engine into
    [Object.prototype].  When a segment before the last names a member of
    it, line 50 reads that member and lines 51-52 go on inside it, for
    [__proto__] inside [Object.prototype] itself, where line 50 creates a
    property that every object inherits from then on and that the pairs
    that follow read.  When the last part of the key, without its marker, is
    [__proto__], line 243 can give the output another prototype.  Where
    [parseParams] above follows such a key that far, it answers [Escapes];
    what is stated below about a field of a whole input is stated for
    inputs without such keys. *)
Definition reaches_prototype (key : string) : bool :=
  existsb inherited (removelast (split dot key))
  || (strip_marker (last (split dot key) EmptyString) =? "__proto__").

(* ================================================================== *)
(** ** Re-serialising coerced output *)

(** Modelled from the spec: the re-serialisation of property 8, "back into a
    flat key/value form using the same keying convention (dots for nesting,
    trailing [] for array elements)".  The repository has no function that
    does it.  [flat v] lists, for a value stored under some key, what is
    appended to that key and the text paired with it: nothing and its own
    text for a scalar, [.name] and so on for each property of a nested
    mapping, [[]] and so on for each element of a sequence. *)
Fixpoint flat (v : Value) : list (string * string) :=
  match v with
  | VString s => [(EmptyString, s)]
  | VNumber n => [(EmptyString, String_of_number n)]
  | VBoolean b => [(EmptyString, if b then "true" else "false")]
  | VDate d => [(EmptyString, toISOString d)]
  | VObject props =>
      flat_map (fun prop =>
                  map (fun tail => ("." ++ fst prop ++ fst tail, snd tail))
                      (flat (snd prop)))
               props
  | VArray items =>
      flat_map (fun item =>
                  map (fun tail => ("[]" ++ fst tail, snd tail)) (flat item))
               items
  end.

(** Modelled from the spec: the flat pairs of one property, and of a whole
    output. *)
Definition serialize_property (prop : string * Value) : list (string * string) :=
  map (fun tail => (fst prop ++ fst tail, snd tail)) (flat (snd prop)).

Definition serialize (o : Obj) : list (string * string) :=
  flat_map serialize_property o.

(** *** Output that a schema describes *)

(** A scalar of the kind a leaf names, whose text coerces back to it: any
    non-empty string, either truth value, and a number or a date that the
    host reads back from the text it prints for it. *)
Definition leaf_typed (leaf : ZodType) (v : Value) : Prop :=
  match leaf, v with
  | (ZodString | ZodLiteral _ | ZodNativeEnum _ | ZodEnum _), VString s =>
      s <> EmptyString
  | ZodNumber, VNumber n =>
      String_of_number n <> EmptyString /\ Number (String_of_number n) = Some n
  | ZodDate, VDate d =>
      toISOString d <> EmptyString /\ Date_parse (toISOString d) = Some d
  | ZodBoolean, VBoolean _ => True
  | _, _ => False
  end.

(** A field name that the keying convention can spell. *)
Definition plain_name (k : string) : Prop :=
  includes "." k = false /\ includes "[]" k = false /\ inherited k = false.

(** [conforms fields o]: every property of [o] is a field of the mapping,
    once, under a plain name, with a value that its node describes
    ([typed]): a non-empty mapping that conforms for an Object field, a
    non-empty sequence of scalars for a field that passes an Array wrapper,
    a scalar otherwise. *)
Inductive conforms : list (string * ZodType) -> Obj -> Prop :=
| conforms_nil (fields : list (string * ZodType)) : conforms fields []
| conforms_cons (fields : list (string * ZodType)) (k : string) (v : Value)
    (o : Obj) (def : ZodType) :
    plain_name k ->
    own fields k = Some def ->
    typed def v ->
    own o k = None ->
    conforms fields o ->
    conforms fields ((k, v) :: o)
with typed : ZodType -> Value -> Prop :=
| typed_object (def : ZodType) (sub : list (string * ZodType)) (props : Obj) :
    fields_of def = Some sub ->
    props <> [] ->
    conforms sub props ->
    typed def (VObject props)
| typed_array (def : ZodType) (items : list Value) :
    through_array def = true ->
    items <> [] ->
    Forall (leaf_typed (leaf_of def)) items ->
    typed def (VArray items)
| typed_leaf (def : ZodType) (v : Value) :
    through_array def = false ->
    leaf_typed (leaf_of def) v ->
    typed def v.

Scheme conforms_min := Minimality for conforms Sort Prop
  with typed_min := Minimality for typed Sort Prop.

Combined Scheme conforms_typed_ind from conforms_min, typed_min.

End Engine.

(** A message is recorded under a key of the error mapping: it is the
    entry, or a member of the sequence that is the entry. *)
Definition recorded (errors : Errors) (key message : string) : Prop :=
  match own errors key with
  | Some (Message m) => m = message
  | Some (Messages ms) => In message ms
  | None => False
  end.

(** The entry that a sequence of messages, added one by one, leaves under
    a key: nothing, the message, or the whole sequence. *)
Definition entry_of (messages : list string) : option ErrorEntry :=
  match messages with
  | [] => None
  | [m] => Some (Message m)
  | _ => Some (Messages messages)
  end.

(* ================================================================== *)
(** ** A concrete host for evaluating the engine on examples *)

(** Numbers and time values are naturals written in decimal; instances of
    the zod classes carry the members common to every [ZodType]. *)
Definition decimal (s : string) : option nat :=
  match NilEmpty.uint_of_string s with
  | Some d => Some (Nat.of_uint d)
  | None => None
  end.

Definition of_decimal (n : nat) : string :=
  NilEmpty.string_of_uint (Nat.to_uint n).

Definition quote : string := String (ascii_of_nat 34) EmptyString.

Definition stringify_entry (entry : string * ErrorEntry) : string :=
  quote ++ fst entry ++ quote ++ ":" ++
  match snd entry with
  | Message m => quote ++ m ++ quote
  | Messages ms =>
      "[" ++ join "," (map (fun m => quote ++ m ++ quote) ms) ++ "]"
  end.

Definition stringify (errors : Errors) : string :=
  "{" ++ join "," (map stringify_entry errors) ++ "}".

Definition ZodType_members : list string :=
  [ "_def"; "parse"; "safeParse"; "parseAsync"; "safeParseAsync"; "spa";
    "refine"; "refinement"; "superRefine"; "optional"; "nullable"; "nullish";
    "array"; "promise"; "or"; "and"; "transform"; "default"; "describe";
    "description"; "isOptional"; "isNullable" ].

Definition TestHost : Host := {|
  number := nat;
  date := nat;
  Number := decimal;
  Date_parse := decimal;
  zod_member := fun _ k => existsb (String.eqb k) ZodType_members;
  JSON_stringify := stringify;
  String_of_number := of_decimal;
  toISOString := of_decimal
|}.

(* ================================================================== *)
(** ** Schemas of the examples *)

Section Examples.

Let Obj := Obj (H := TestHost).
Let Schema := Schema (H := TestHost).

(** [z.object({ name: z.string() })]: the validator wants a string under
    [name] and strips every other key. *)
Definition name_schema : Schema := {|
  zod := ZodObject [("name", ZodString)];
  safeParse := fun o : Obj =>
    match own o "name" with
    | Some (VString s) => SafeParseSuccess (VObject [("name", VString s)])
    | _ => SafeParseError [{| message := "Required"; path := [PString "name"] |}]
    end
|}.

(** [z.object({ password, confirm }).refine(same, "Passwords do not
    match")]: the refinement of the whole object reports with an empty
    path. *)
Definition password_schema : Schema := {|
  zod := ZodEffects (ZodObject [("password", ZodString); ("confirm", ZodString)]);
  safeParse := fun o : Obj =>
    match own o "password", own o "confirm" with
    | Some (VString p), Some (VString c) =>
        if p =? c
        then SafeParseSuccess (VObject [("password", VString p); ("confirm", VString c)])
        else SafeParseError [{| message := "Passwords do not match"; path := [] |}]
    | None, _ => SafeParseError [{| message := "Required"; path := [PString "password"] |}]
    | _, _ => SafeParseError [{| message := "Required"; path := [PString "confirm"] |}]
    end
|}.

(** [z.object({ shipping: z.boolean(), address: z.object({ city:
    z.string() }).optional() }).superRefine(...)]: when [shipping] is set
    the refinement wants a city and reports its absence at the path
    [address, city]. *)
Definition shipping_schema : Schema := {|
  zod := ZodEffects
           (ZodObject [("shipping", ZodBoolean);
                       ("address", ZodOptional (ZodObject [("city", ZodString)]))]);
  safeParse := fun o : Obj =>
    match own o "shipping" with
    | Some (VBoolean true) =>
        match own o "address" with
        | Some (VObject [("city", VString c)]) => SafeParseSuccess (VObject o)
        | _ =>
            SafeParseError
              [{| message := "City is required for shipping";
                  path := [PString "address"; PString "city"] |}]
        end
    | Some (VBoolean false) => SafeParseSuccess (VObject o)
    | _ => SafeParseError [{| message := "Required"; path := [PString "shipping"] |}]
    end
|}.

(** [z.object({ name: z.string(), tags: z.array(z.number()), address:
    z.object({ city: z.string() }) })]. *)
Definition profile : ZodType :=
  ZodObject [("name", ZodString);
             ("tags", ZodArray ZodNumber);
             ("address", ZodObject [("city", ZodString)])].

Definition profile_input : list (string * string) :=
  [("tags[]", "1"); ("address.city", "Boston"); ("name", "Ada");
   ("tags", "2"); ("address.city", "Paris"); ("name", "Grace"); ("name", "")].

Definition profile_output : Obj :=
  [("tags", VArray [@VNumber TestHost 1; @VNumber TestHost 2]);
   ("address", VObject [("city", VString "Paris")]);
   ("name", VString "Grace")].

(** [z.union([z.object({ kind: z.literal("a"), tags: z.array(z.string()) }),
    z.object({ kind: z.literal("b"), tags: z.array(z.string()) })])]: the
    validator wants one of the two kinds and strings under [tags], and
    returns the two fields. *)
Definition tagged_union : Schema := {|
  zod := ZodUnion [ZodObject [("kind", ZodLiteral "a"); ("tags", ZodArray ZodString)];
                   ZodObject [("kind", ZodLiteral "b"); ("tags", ZodArray ZodString)]];
  safeParse := fun o : Obj =>
    match own o "kind", own o "tags" with
    | Some (VString kind), Some (VArray items) =>
        if ((kind =? "a") || (kind =? "b"))
           && forallb (fun item => match item with VString _ => true | _ => false end) items
        then SafeParseSuccess (VObject [("kind", VString kind); ("tags", VArray items)])
        else SafeParseError [{| message := "Invalid input"; path := [] |}]
    | _, _ => SafeParseError [{| message := "Invalid input"; path := [] |}]
    end
|}.

(** [z.object({ address: z.object({ city: z.string().optional() }) })]: the
    validator wants a mapping under [address]. *)
Definition address_schema : Schema := {|
  zod := ZodObject [("address", ZodObject [("city", ZodOptional ZodString)])];
  safeParse := fun o : Obj =>
    match own o "address" with
    | Some (VObject []) => SafeParseSuccess (VObject [("address", VObject [])])
    | Some (VObject [("city", VString c)]) =>
        SafeParseSuccess (VObject [("address", VObject [("city", VString c)])])
    | Some _ =>
        SafeParseError [{| message := "Expected string"; path := [PString "address"; PString "city"] |}]
    | None => SafeParseError [{| message := "Required"; path := [PString "address"] |}]
    end
|}.

(** [z.object({ username: z.string().min(3).regex(/^\S+$/) })]: each
    violated constraint of the field is an issue of its own. *)
Definition username_schema : Schema := {|
  zod := ZodObject [("username", ZodString)];
  safeParse := fun o : Obj =>
    match own o "username" with
    | Some (VString s) =>
        match
          ((if Nat.ltb (String.length s) 3
            then [{| message := "Too short"; path := [PString "username"] |}]
            else []) ++
           (if includes " " s
            then [{| message := "No spaces"; path := [PString "username"] |}]
            else []))%list
        with
        | [] => SafeParseSuccess (VObject [("username", VString s)])
        | issues => SafeParseError issues
        end
    | _ => SafeParseError [{| message := "Required"; path := [PString "username"] |}]
    end
|}.

(** [profile] with a validator that wants the name and hands the coerced
    output back. *)
Definition profile_schema : Schema := {|
  zod := profile;
  safeParse := fun o : Obj =>
    match own o "name" with
    | Some (VString _) => SafeParseSuccess (VObject o)
    | _ => SafeParseError [{| message := "Required"; path := [PString "name"] |}]
    end
|}.

(** [z.union([z.object({ kind: z.literal("person"), name: z.string() }),
    z.object({ kind: z.literal("company"), name: z.string(), tags:
    z.array(z.string()) })])]: both options have [name], one has [tags]. *)
Definition contact : ZodType :=
  ZodUnion [ZodObject [("kind", ZodLiteral "person"); ("name", ZodString)];
            ZodObject [("kind", ZodLiteral "company"); ("name", ZodString);
                       ("tags", ZodArray ZodString)]].

Definition contact_input : list (string * string) :=
  [("name", "Ada"); ("tags[]", "x"); ("name", "Grace"); ("tags", "y")].

(** [profile] with a validator that, as zod does, returns the fields it
    knows in the order of the schema, whatever their order in what it is
    handed. *)
Definition ordered_profile_schema : Schema := {|
  zod := profile;
  safeParse := fun o : Obj =>
    match own o "name", own o "tags", own o "address" with
    | Some (VString name), Some (VArray items), Some (VObject address) =>
        match own address "city" with
        | Some (VString city) =>
            SafeParseSuccess
              (VObject [("name", VString name); ("tags", VArray items);
                        ("address", VObject [("city", VString city)])])
        | _ =>
            SafeParseError
              [{| message := "Required"; path := [PString "address"; PString "city"] |}]
        end
    | None, _, _ => SafeParseError [{| message := "Required"; path := [PString "name"] |}]
    | _, None, _ => SafeParseError [{| message := "Required"; path := [PString "tags"] |}]
    | _, _, _ => SafeParseError [{| message := "Required"; path := [PString "address"] |}]
    end
|}.

(** What that validator makes of [profile_output]. *)
Definition profile_data : Obj :=
  [("name", VString "Grace");
   ("tags", VArray [@VNumber TestHost 1; @VNumber TestHost 2]);
   ("address", VObject [("city", VString "Paris")])].

End Examples.

(* ================================================================== *)
(** ** The request wrappers *)

Section Wrappers.

Context {H : Host}.

(** What the wrappers read of a request: its [url], and what awaiting
    [request.formData()] gives, the entries of the form data or the reason
    of a rejection.  Entries hold strings, as in [getParamsInternal]. *)
Record Request : Type := {
  url : string;
  formData : Outcome (list (string * string))
}.

(** [searchParams href] is [Array.from(new URL(href).searchParams)], and
    [None] where the [URL] constructor throws. *)
Variable searchParams : string -> option (list (string * string)).

Definition new_URL (href : string) : Outcome (list (string * string)) :=
  match searchParams href with
  | Some entries => Returns entries
  | None => Throws (TypeError "Invalid URL")
  end.

Definition getSearchParams (request : Request) (schema : Schema)
  : Outcome ParseResult :=
  entries <- new_URL (url request) ;;
  getParamsInternal entries schema.

(** The outcome with which the promise of the async function settles. *)
Definition getFormData (request : Request) (schema : Schema)
  : Outcome ParseResult :=
  data <- formData request ;;
  getParamsInternal data schema.

(** Lines 151-154, the same in the three OrFail variants, on the outcome of
    the plain variant. *)
Definition escalate (outcome : Outcome ParseResult) : Outcome Value :=
  result <- outcome ;;
  match result with
  | Failure errors => Throws (Error (JSON_stringify errors))
  | Success data => Returns data
  end.

Definition getSearchParamsOrFail (request : Request) (schema : Schema)
  : Outcome Value :=
  entries <- new_URL (url request) ;;
  result <- getParamsInternal entries schema ;;
  match result with
  | Failure errors => Throws (Error (JSON_stringify errors))
  | Success data => Returns data
  end.

Definition getFormDataOrFail (request : Request) (schema : Schema)
  : Outcome Value :=
  data <- formData request ;;
  result <- getParamsInternal data schema ;;
  match result with
  | Failure errors => Throws (Error (JSON_stringify errors))
  | Success data => Returns data
  end.

(** *** Strings in the coerced output *)

(** Whether a value holds the empty string, at any depth. *)
Fixpoint holds_empty (v : Value) : bool :=
  match v with
  | VString s => s =? EmptyString
  | VNumber _ | VBoolean _ | VDate _ => false
  | VObject props => existsb (fun prop => holds_empty (snd prop)) props
  | VArray items => existsb holds_empty items
  end.

(** *** Keys and nodes by what the engine does with them *)

(** The leaves for which lines 209-221 compute a value; on every other node
    that the recursion of [processDef] ends at, line 238 throws. *)
Definition handled (leaf : ZodType) : bool :=
  match leaf with
  | ZodString | ZodLiteral _ | ZodNumber | ZodDate | ZodBoolean
  | ZodNativeEnum _ | ZodEnum _ => true
  | _ => false
  end.

(** A key without a dot whose name is neither a field of the mapping nor a
    member of [Object.prototype]. *)
Definition ignored (fields : list (string * ZodType)) (key : string) : bool :=
  negb (includes "." key) && negb (inherited (strip_marker key))
  && match own fields (strip_marker key) with None => true | Some _ => false end.

(** An option of a Union that resolves to a field mapping without the
    field [name]. *)
Definition lacks (name : string) (option : ZodType) : bool :=
  match fields_of option with
  | Some fields => match own fields name with None => true | Some _ => false end
  | None => false
  end.

(** A field node at which shape resolution stops at once, and which is no
    Union: a dotted key cannot go below it. *)
Definition closed_node (field : ZodType) : bool :=
  match field with
  | ZodObject _ | ZodObject_null | ZodEffects _ | ZodUnion _ => false
  | _ => true
  end.

End Wrappers.

(* ================================================================== *)
(** ** Input attributes *)

(** A number of a schema's constraint, as far as [getInputProps] looks at
    it: whether it is truthy and whether it is finite. *)
Inductive JsNumber : Type :=
| Finite (q : Q)
| Infinity (positive : bool)
| NaN.

(** [if (n)]. *)
Definition truthy (n : JsNumber) : bool :=
  match n with
  | Finite q => negb (Qeq_bool q 0%Q)
  | Infinity _ => true
  | NaN => false
  end.

(** [Number.isFinite(n)]. *)
Definition isFinite (n : JsNumber) : bool :=
  match n with Finite _ => true | _ => false end.

(** A schema node with what [getInputProps] reads of it: of a ZodString its
    [isEmail], [isURL], [minLength], [maxLength] ([None] for [null]) and the
    [regex.source] of its first regex check; of a ZodNumber its [minValue]
    and [maxValue].  [DefOther] stands for every other zod class. *)
Inductive ZodDef : Type :=
| DefString (isEmail isURL : bool) (minLength maxLength : option JsNumber)
    (regex : option string)
| DefNumber (minValue maxValue : option JsNumber)
| DefBoolean
| DefDate
| DefArray (element : ZodDef)
| DefOptional (innerType : ZodDef)
| DefObject (shape : list (string * ZodDef))
| DefOther (typeName : string).

Record InputPropType : Type := {
  name : string;
  type : string;
  required : option bool;
  min : option JsNumber;
  max : option JsNumber;
  minLength : option JsNumber;
  maxLength : option JsNumber;
  pattern : option string
}.

Section InputProps.

(** [def.isOptional()], which zod answers by validating [undefined]. *)
Variable isOptional : ZodDef -> bool.

(** [if (n) props.x = n]. *)
Definition when_truthy (n : option JsNumber) : option JsNumber :=
  match n with
  | Some n' => if truthy n' then Some n' else None
  | None => None
  end.

(** [if (n && Number.isFinite(n)) props.x = n]. *)
Definition when_finite (n : option JsNumber) : option JsNumber :=
  match n with
  | Some n' => if truthy n' && isFinite n' then Some n' else None
  | None => None
  end.

(** [if (pattern) props.pattern = pattern]. *)
Definition when_nonempty (pattern : option string) : option string :=
  match pattern with
  | Some source => if Boolean source then Some source else None
  | None => None
  end.

(** Lines 274-284, for the [type] and the constraints that lines 248-267
    collected. *)
Definition inputProps (name : string) (def : ZodDef) (type : string)
  (min max minlength maxlength : option JsNumber) (pattern : option string)
  : InputPropType :=
  {| name := name;
     type := type;
     required := if isOptional def then None else Some true;
     min := when_truthy min;
     max := when_truthy max;
     minLength := when_finite minlength;
     maxLength := when_finite maxlength;
     pattern := when_nonempty pattern |}.

Fixpoint getInputProps (name : string) (def : ZodDef) {struct def} : InputPropType :=
  match def with
  | DefString isEmail isURL minLength maxLength regex =>
      inputProps name def
        (if isEmail then "email" else if isURL then "url" else "text")
        None None minLength maxLength regex
  | DefNumber minValue maxValue =>
      inputProps name def "number" minValue maxValue None None None
  | DefBoolean => inputProps name def "checkbox" None None None None None
  | DefDate => inputProps name def "date" None None None None None
  | DefArray element => getInputProps name element
  | DefOptional innerType => getInputProps name innerType
  | _ => inputProps name def "text" None None None None None
  end.

(** [useFormInputProps(schema, options)(key, options)].  [schema.shape] is
    [undefined] unless the schema is a ZodObject; the merged options are
    read nowhere. *)
Definition useFormInputProps {Options : Type} (schema : ZodDef)
  (defaultOptions : Options) (key : string) (options : Options)
  : Outcome InputPropType :=
  match schema with
  | DefObject shape =>
      match get shape key with
      | Own def => Returns (getInputProps key def)
      | Builtin => Throws (TypeError "def.isOptional is not a function")
      | Undefined => Throws (Error ("no such key: " ++ key))
      end
  | _ => Throws (TypeError "Cannot read properties of undefined")
  end.

(** The node whose attributes [getInputProps] reports: the one under the
    Array and Optional wrappers. *)
Fixpoint input_node (def : ZodDef) : ZodDef :=
  match def with
  | DefArray element => input_node element
  | DefOptional innerType => input_node innerType
  | _ => def
  end.

End InputProps.

(* ================================================================== *)
(** ** Attributes of the examples *)

(** [isOptional()] as zod answers it for the nodes of the examples: an
    Optional accepts [undefined], the other nodes do not. *)
Definition optional_wrapper (def : ZodDef) : bool :=
  match def with DefOptional _ => true | _ => false end.

(** [z.object({ email: z.string().email().min(0).max(80).optional(),
    age: z.number().min(0).max(120), tags: z.array(z.string().regex(/^\w+$/)) })]. *)
Definition signup : ZodDef :=
  DefObject
    [("email", DefOptional (DefString true false (Some (Finite 0)) (Some (Finite 80)) None));
     ("age", DefNumber (Some (Finite 0)) (Some (Finite 120)));
     ("tags", DefArray (DefString false false None None (Some "^\w+$")))].

(** A query-string reader for the examples: it knows one address. *)
Definition example_searchParams (href : string) : option (list (string * string)) :=
  if href =? "https://example.com/?name=Ada&unexpected=x"
  then Some [("name", "Ada"); ("unexpected", "x")]
  else None.

(* ================================================================== *)
(** * Properties *)

Unset Implicit Arguments.

(** ** Strings *)

Lemma includes_marker_app (k : string) : includes "[]" (k ++ "[]") = true.
Proof.
  induction k as [|c k IH]; [reflexivity|].
  cbn [append includes].
  destruct (startsWith "[]" (String c (k ++ "[]"))); [reflexivity | exact IH].
Qed.

Lemma startsWith_marker_app (c : ascii) (k : string) :
  includes "[]" (String c k) = false ->
  startsWith "[]" (String c (k ++ "[]")) = false.
Proof.
  cbn [includes]. destruct (startsWith "[]" (String c k)) eqn:Hp; [discriminate|].
  intros _. revert Hp. cbn [startsWith].
  destruct (Ascii.eqb "["%char c); [|reflexivity].
  destruct k as [|d k]; cbn [append startsWith andb].
  - reflexivity.
  - destruct (Ascii.eqb "]"%char d); [discriminate | reflexivity].
Qed.

(** A trailing marker after a name that holds none is the occurrence that
    [replace] removes. *)
Lemma replace_marker_app (k : string) :
  includes "[]" k = false -> replace "[]" "" (k ++ "[]") = k.
Proof.
  induction k as [|c k IH]; [reflexivity|].
  intro Hk. cbn [append replace].
  rewrite (startsWith_marker_app _ _ Hk).
  f_equal. apply IH.
  cbn [includes] in Hk.
  destruct (startsWith "[]" (String c k)); [discriminate | exact Hk].
Qed.

Lemma includes_dot_String (c : ascii) (s : string) :
  includes "." (String c s) = Ascii.eqb "."%char c || includes "." s.
Proof.
  cbn [includes startsWith]. rewrite andb_true_r.
  destruct (Ascii.eqb "."%char c); reflexivity.
Qed.

Lemma includes_dot_app (a b : string) :
  includes "." (a ++ b) = includes "." a || includes "." b.
Proof.
  induction a as [|c a IH]; [reflexivity|].
  cbn [append]. rewrite !includes_dot_String, IH. apply orb_assoc.
Qed.

(** [key.split('.')] at a key [a.b] whose [a] holds no dot. *)
Lemma split_dot_app (a b : string) :
  includes "." a = false -> split dot (a ++ "." ++ b) = a :: split dot b.
Proof.
  induction a as [|c a IH]; intro Ha.
  - reflexivity.
  - rewrite includes_dot_String in Ha. apply orb_false_elim in Ha as [Hc Ha].
    change (String c a ++ "." ++ b) with (String c (a ++ "." ++ b)).
    cbn [split].
    replace (Ascii.eqb c dot) with false
      by (unfold dot; rewrite Ascii.eqb_sym; symmetry; exact Hc).
    rewrite (IH Ha). reflexivity.
Qed.

Lemma split_not_nil (sep : ascii) (s : string) : split sep s <> [].
Proof.
  induction s as [|c s IH]; simpl; [discriminate|].
  destruct (Ascii.eqb c sep); [discriminate|].
  destruct (split sep s); [contradiction | discriminate].
Qed.

(** [key.split('.').join('.')] is [key]. *)
Lemma join_split (s : string) : join "." (split dot s) = s.
Proof.
  induction s as [|c s IH]; [reflexivity|].
  cbn [split]. destruct (Ascii.eqb c dot) eqn:Hc.
  - apply Ascii.eqb_eq in Hc. subst c.
    pose proof (split_not_nil dot s) as Hn.
    destruct (split dot s) as [|p ps] eqn:Hs; [contradiction|].
    cbn [join]. cbn [join] in IH. rewrite IH. reflexivity.
  - pose proof (split_not_nil dot s) as Hn.
    destruct (split dot s) as [|p ps] eqn:Hs; [contradiction|].
    destruct ps as [|q qs].
    + cbn [join] in *. congruence.
    + cbn [join] in *. rewrite <- IH. reflexivity.
Qed.

(* ================================================================== *)
(** ** Objects and outcomes *)

Section Objects.

Context {A : Type}.

Lemma with_own_own {R : Type} (k : string) (found : A -> R) (missing : R)
  (o : list (string * A)) :
  with_own k found missing o =
  match own o k with Some v => found v | None => missing end.
Proof.
  induction o as [|[k' v] o IH]; [reflexivity|].
  cbn [with_own own]. destruct (String.eqb k' k); [reflexivity | exact IH].
Qed.

Lemma own_set_same (o : list (string * A)) (k : string) (v : A) :
  own (set o k v) k = Some v.
Proof.
  induction o as [|[k' v'] o IH]; cbn [set own].
  - rewrite String.eqb_refl. reflexivity.
  - destruct (String.eqb k' k) eqn:Hk; cbn [own]; rewrite Hk; [reflexivity | exact IH].
Qed.

Lemma own_set_other (o : list (string * A)) (k k0 : string) (v : A) :
  k0 <> k -> own (set o k v) k0 = own o k0.
Proof.
  intro Hne. induction o as [|[k' v'] o IH]; cbn [set own].
  - destruct (String.eqb k k0) eqn:Hk; [|reflexivity].
    apply String.eqb_eq in Hk. congruence.
  - destruct (String.eqb k' k) eqn:Hk; cbn [own].
    + apply String.eqb_eq in Hk. subst k'.
      destruct (String.eqb k k0) eqn:Hk0; [|reflexivity].
      apply String.eqb_eq in Hk0. congruence.
    + rewrite IH. reflexivity.
Qed.

(** Assigning under a new name appends the property. *)
Lemma set_absent (o : list (string * A)) (k : string) (v : A) :
  own o k = None -> set o k v = (o ++ [(k, v)])%list.
Proof.
  induction o as [|[k' v'] o IH]; cbn [set own app]; [reflexivity|].
  destruct (String.eqb k' k); [discriminate|].
  intro Ho. rewrite (IH Ho). reflexivity.
Qed.

(** Assigning a property the value it holds changes nothing. *)
Lemma set_own_same (o : list (string * A)) (k : string) (v : A) :
  own o k = Some v -> set o k v = o.
Proof.
  induction o as [|[k' v'] o IH]; cbn [set own]; [discriminate|].
  destruct (String.eqb k' k).
  - intros [= ->]. reflexivity.
  - intro Ho. rewrite (IH Ho). reflexivity.
Qed.

Lemma set_set (o : list (string * A)) (k : string) (v w : A) :
  set (set o k v) k w = set o k w.
Proof.
  induction o as [|[k' v'] o IH]; cbn [set].
  - rewrite String.eqb_refl. reflexivity.
  - destruct (String.eqb k' k) eqn:Hk; cbn [set]; rewrite Hk; [reflexivity|].
    rewrite IH. reflexivity.
Qed.

Lemma own_app (o1 o2 : list (string * A)) (k : string) :
  own (o1 ++ o2)%list k =
  match own o1 k with Some v => Some v | None => own o2 k end.
Proof.
  induction o1 as [|[k' v'] o1 IH]; cbn [app own]; [reflexivity|].
  destruct (String.eqb k' k); [reflexivity | exact IH].
Qed.

Lemma get_own (o : list (string * A)) (k : string) (v : A) :
  own o k = Some v -> get o k = Own v.
Proof. unfold get. intros ->. reflexivity. Qed.

Lemma get_undefined (o : list (string * A)) (k : string) :
  own o k = None -> inherited k = false -> get o k = Undefined.
Proof. unfold get. intros -> ->. reflexivity. Qed.

End Objects.

Lemma bind_returns_inv {A B : Type} (c : Outcome A) (k : A -> Outcome B) (b : B) :
  bind c k = Returns b -> exists a, c = Returns a /\ k a = Returns b.
Proof. destruct c; cbn; try discriminate. intro Hk. eauto. Qed.

Lemma bind_Returns {A : Type} (c : Outcome A) : bind c (fun a => Returns a) = c.
Proof. destruct c; reflexivity. Qed.

Lemma for_of_app {A S : Type} (body : S -> A -> Outcome S) (xs ys : list A) (s : S) :
  for_of body (xs ++ ys)%list s = bind (for_of body xs s) (for_of body ys).
Proof.
  revert s. induction xs as [|x xs IH]; intro s; cbn [app for_of]; [reflexivity|].
  destruct (body s x); cbn [bind]; [apply IH | reflexivity | reflexivity].
Qed.

(** A structural induction principle for schema nodes that reaches the
    fields of an Object and the options of a Union. *)
Lemma ZodType_nested_ind (P : ZodType -> Prop) :
  P ZodString ->
  (forall value, P (ZodLiteral value)) ->
  P ZodNumber ->
  P ZodDate ->
  P ZodBoolean ->
  (forall values, P (ZodNativeEnum values)) ->
  (forall values, P (ZodEnum values)) ->
  (forall innerType, P innerType -> P (ZodOptional innerType)) ->
  (forall innerType, P innerType -> P (ZodDefault innerType)) ->
  (forall element, P element -> P (ZodArray element)) ->
  (forall schema, P schema -> P (ZodEffects schema)) ->
  (forall shape, Forall (fun field => P (snd field)) shape -> P (ZodObject shape)) ->
  P ZodObject_null ->
  (forall options, Forall P options -> P (ZodUnion options)) ->
  (forall typeName, P (ZodOther typeName)) ->
  forall z, P z.
Proof.
  intros HS HL HN HD HB HNE HE HO HDf HA HEf HOb HNull HU HOt.
  fix IH 1. intros [ | v | | | | vs | vs | i | i | e | s | shape | | options | n ].
  - exact HS.
  - apply HL.
  - exact HN.
  - exact HD.
  - exact HB.
  - apply HNE.
  - apply HE.
  - apply HO, IH.
  - apply HDf, IH.
  - apply HA, IH.
  - apply HEf, IH.
  - apply HOb. induction shape as [|[k z] shape IHs]; constructor; [apply IH | exact IHs].
  - exact HNull.
  - apply HU. induction options as [|z options IHs]; constructor; [apply IH | exact IHs].
  - apply HOt.
Qed.

(* ================================================================== *)
(** ** The engine, equation by equation *)

Section EngineFacts.

Context {H : Host}.

Lemma parseParams_ZodEffects (o : Obj) (inner : ZodType) (key value : string) :
  parseParams o (ZodEffects inner) key value = parseParams o inner key value.
Proof. reflexivity. Qed.

Lemma parseParams_ZodUnion (o : Obj) (options : list ZodType) (key value : string) :
  parseParams o (ZodUnion options) key value =
  for_of (fun o option => parseParams o option key value) options o.
Proof. reflexivity. Qed.

Lemma parseParams_ZodObject_null (o : Obj) (key value : string) :
  parseParams o ZodObject_null key value
  = Throws (Error ("Could not find shape for key " ++ key)).
Proof. reflexivity. Qed.

Lemma parseParams_ZodObject (o : Obj) (shape : list (string * ZodType))
  (key value : string) :
  parseParams o (ZodObject shape) key value =
  route parseParams (ShapeRecord shape) o key value.
Proof.
  cbn [parseParams instanceof_ZodObject orb]. unfold route.
  destruct (includes "." key).
  - destruct (split dot key) as [|parentProp rest]; [reflexivity|].
    assert (Hd : forall o1 child,
      (if in_shape (ShapeRecord shape) parentProp
       then with_own parentProp
              (fun field => match child with
                            | VObject props =>
                                props' <- parseParams props field (join "." rest) value ;;
                                Returns (set o1 parentProp (VObject props'))
                            | _ => Escapes
                            end) Escapes shape
       else Returns o1) =
      descend parseParams (ShapeRecord shape) parentProp rest value o1 child).
    { intros o1 child. unfold descend.
      destruct (in_shape (ShapeRecord shape) parentProp); [|reflexivity].
      rewrite with_own_own. destruct (own shape parentProp); [|reflexivity].
      destruct child; reflexivity. }
    cbv zeta. destruct (get o parentProp) as [child| |];
      [ apply Hd | reflexivity | exact (Hd (set o parentProp (VObject [])) (VObject [])) ].
  - cbv zeta. rewrite with_own_own. reflexivity.
Qed.

(** The source's own shape: the loop of lines 28-39, the fan-out of lines
    41-46, then lines 48-64 on the shape found. *)
Theorem parseParams_eq (o : Obj) (schema : ZodType) (key value : string) :
  parseParams o schema key value =
  shape <- find_shape key schema ;;
  match shape with
  | ShapeInstance (ZodUnion options) =>
      for_of (fun o option => parseParams o option key value) options o
  | _ => route parseParams shape o key value
  end.
Proof.
  induction schema; try reflexivity.
  - rewrite parseParams_ZodEffects. exact IHschema.
  - rewrite parseParams_ZodObject. reflexivity.
Qed.

Lemma init_array_idem (o : Obj) (key : string) :
  init_array (init_array o key) key = init_array o key.
Proof.
  unfold init_array at 2 3.
  destruct (get o key) eqn:Hg.
  - unfold init_array. rewrite Hg. reflexivity.
  - unfold init_array. rewrite Hg. reflexivity.
  - unfold init_array, get. rewrite own_set_same. reflexivity.
Qed.

(** [processDef] is: make room for an array if an Array node was passed,
    then store the coerced value of the leaf, or throw on an unexpected
    leaf. *)
Lemma processDef_eq (def : ZodType) (o : Obj) (key value : string) :
  processDef def o key value =
  match coerceLeaf (leaf_of def) value with
  | Some parsedValue =>
      store (if through_array def then init_array o key else o) key parsedValue
  | None =>
      Throws (Error ("Unexpected type " ++ typeName_of (leaf_of def) ++ " for key " ++ key))
  end.
Proof.
  revert o. induction def; intro o; cbn [processDef leaf_of through_array];
    try reflexivity; try apply IHdef.
  rewrite IHdef. destruct (coerceLeaf (leaf_of def) value); [|reflexivity].
  destruct (through_array def); [rewrite init_array_idem|]; reflexivity.
Qed.

End EngineFacts.

(* ================================================================== *)
(** ** Boolean leaves *)

(** C4. Under a Boolean leaf a non-empty raw value [v] is stored as [true]
    when it is exactly "true", as [false] when it is exactly "false", and
    as [true] for every other non-empty string. *)
Theorem processDef_boolean {H : Host} (o : Obj) (key v : string) :
  v <> "" ->
  (v = "true" -> processDef ZodBoolean o key v = store o key (VBoolean true)) /\
  (v = "false" -> processDef ZodBoolean o key v = store o key (VBoolean false)) /\
  (v <> "true" -> v <> "false" ->
   processDef ZodBoolean o key v = store o key (VBoolean true)).
Proof.
  intro Hne. repeat split.
  - intros ->. reflexivity.
  - intros ->. reflexivity.
  - intros Ht Hf. cbn [processDef].
    destruct (String.eqb_spec v "true") as [|_]; [contradiction|].
    destruct (String.eqb_spec v "false") as [|_]; [contradiction|].
    unfold Boolean. destruct (String.eqb_spec v "") as [|_]; [contradiction|].
    reflexivity.
Qed.

Lemma processDef_boolean_yes :
  "yes" <> "" /\ "yes" <> "true" /\ "yes" <> "false" /\
  processDef (H := TestHost) ZodBoolean [] "subscribe" "yes"
  = Returns [("subscribe", VBoolean true)].
Proof.
  assert (Hne : "yes" <> "") by discriminate.
  assert (Ht : "yes" <> "true") by discriminate.
  assert (Hf : "yes" <> "false") by discriminate.
  split; [exact Hne|]. split; [exact Ht|]. split; [exact Hf|].
  destruct (processDef_boolean (H := TestHost) [] "subscribe" "yes" Hne)
    as (_ & _ & Hother).
  rewrite (Hother Ht Hf). reflexivity.
Defined.

(* ================================================================== *)
(** ** Keys that name no field *)

(** A key without a dot whose stripped name is neither a field nor a member
    of [Object.prototype] leaves the output as it was. *)
Lemma parseParams_unknown_key {H : Host} (o : Obj) (shape : list (string * ZodType))
  (key value : string) :
  includes "." key = false ->
  own shape (strip_marker key) = None ->
  inherited (strip_marker key) = false ->
  parseParams o (ZodObject shape) key value = Returns o.
Proof.
  intros Hdot Hown Hinh. rewrite parseParams_ZodObject. unfold route.
  rewrite Hdot. cbv zeta. rewrite Hown, Hinh. reflexivity.
Qed.

(** A dotted key whose first segment is neither a field nor a member of
    [Object.prototype] leaves an empty mapping under that segment, and
    nothing else. *)
Lemma parseParams_unknown_parent {H : Host} (o : Obj) (shape : list (string * ZodType))
  (parentProp rest value : string) :
  includes "." parentProp = false ->
  own shape parentProp = None ->
  inherited parentProp = false ->
  parseParams o (ZodObject shape) (parentProp ++ "." ++ rest) value =
  Returns (match own o parentProp with
           | Some _ => o
           | None => set o parentProp (VObject [])
           end).
Proof.
  intros Hdot Hown Hinh. rewrite parseParams_ZodObject. unfold route.
  rewrite includes_dot_app, Hdot. cbn [orb].
  replace (includes "." ("." ++ rest)) with true by reflexivity.
  rewrite (split_dot_app _ _ Hdot).
  unfold descend, in_shape. rewrite Hown, Hinh. unfold get. rewrite Hinh.
  destruct (own o parentProp); reflexivity.
Qed.

Lemma parseParams_unknown_key_unexpected :
  includes "." "unexpected" = false /\
  own [("name", ZodString)] (strip_marker "unexpected") = None /\
  inherited (strip_marker "unexpected") = false /\
  parseParams (H := TestHost) [] (ZodObject [("name", ZodString)]) "unexpected" "x"
  = Returns [].
Proof.
  split; [reflexivity|]. split; [reflexivity|]. split; [reflexivity|].
  exact (parseParams_unknown_key (H := TestHost) [] [("name", ZodString)]
           "unexpected" "x" eq_refl eq_refl eq_refl).
Defined.

Lemma parseParams_unknown_parent_extra :
  includes "." "extra" = false /\
  own [("name", ZodString)] "extra" = None /\
  inherited "extra" = false /\
  parseParams (H := TestHost) [] (ZodObject [("name", ZodString)]) "extra.note" "x"
  = Returns [("extra", VObject [])].
Proof.
  split; [reflexivity|]. split; [reflexivity|]. split; [reflexivity|].
  exact (parseParams_unknown_parent (H := TestHost) [] [("name", ZodString)]
           "extra" "note" "x" eq_refl eq_refl eq_refl).
Defined.

(** A key without a dot whose stripped name is no field but a member of
    [Object.prototype] makes the call throw. *)
Lemma parseParams_inherited_key {H : Host} (o : Obj) (shape : list (string * ZodType))
  (key value : string) :
  includes "." key = false ->
  own shape (strip_marker key) = None ->
  inherited (strip_marker key) = true ->
  parseParams o (ZodObject shape) key value = processDef_builtin.
Proof.
  intros Hdot Hown Hinh. rewrite parseParams_ZodObject. unfold route.
  rewrite Hdot. cbv zeta. rewrite Hown, Hinh. reflexivity.
Qed.

(** C1, at the input where the code departs from it: the unknown key
    "constructor" is not ignored; the parse call throws a TypeError, whatever
    the host and the validator of the schema. *)
Theorem unknown_key_constructor_throws {H : Host} (validate : Obj -> SafeParseReturn) :
  own [("name", ZodOptional ZodString)] "constructor" = None /\
  getParamsInternal [("constructor", "x")]
    {| zod := ZodObject [("name", ZodOptional ZodString)]; safeParse := validate |}
  = Throws (TypeError "Cannot read properties of undefined (reading 'typeName')").
Proof.
  split; [reflexivity|].
  unfold getParamsInternal, coerce, run. cbn [for_of step zod String.eqb Ascii.eqb Bool.eqb].
  rewrite (parseParams_inherited_key [] [("name", ZodOptional ZodString)]
             "constructor" "x" eq_refl eq_refl eq_refl).
  reflexivity.
Qed.

(* ================================================================== *)
(** ** Shape resolution *)

Lemma In_own {A : Type} (o : list (string * A)) (k : string) (v : A) :
  own o k = Some v -> In (k, v) o.
Proof.
  induction o as [|[k' v'] o IH]; cbn [own]; [discriminate|].
  destruct (String.eqb_spec k' k) as [->|_].
  - intros [= ->]. left. reflexivity.
  - intro Ho. right. exact (IH Ho).
Qed.

Lemma find_shape_no_shape (key : string) (schema : ZodType) :
  no_shape schema = true ->
  find_shape key schema = Throws (Error ("Could not find shape for key " ++ key)).
Proof.
  induction schema; cbn [no_shape]; try discriminate.
  - exact IHschema.
  - reflexivity.
Qed.

(** C9. There are schemas for which shape resolution finds no field mapping
    and the parse call fails with the internal shape error: those that are,
    under their Effect wrappers, an Object whose shape is [null].  Against
    such a schema the loop of lines 29-39 throws for every key, and the whole
    parse call throws at the first pair whose value is not empty, with the
    error that names the key of that pair; the pairs that follow are not
    looked at and the validator is not called, so no Failure is returned
    and the key is not ignored. *)
Theorem null_shape_raises_shape_error {H : Host} (schema : Schema)
  (skipped rest : list (string * string)) (key value : string) :
  no_shape (zod schema) = true ->
  Forall (fun entry => snd entry = "") skipped ->
  value <> "" ->
  find_shape key (zod schema) = Throws (Error ("Could not find shape for key " ++ key)) /\
  (forall o : Obj,
     parseParams o (zod schema) key value
     = Throws (Error ("Could not find shape for key " ++ key))) /\
  getParamsInternal (skipped ++ (key, value) :: rest)%list schema
  = Throws (Error ("Could not find shape for key " ++ key)).
Proof.
  intros Hnull Hskipped Hvalue.
  pose proof (find_shape_no_shape key (zod schema) Hnull) as Hfind.
  assert (Hroute : forall o : Obj,
            parseParams o (zod schema) key value
            = Throws (Error ("Could not find shape for key " ++ key))).
  { intro o. rewrite parseParams_eq, Hfind. reflexivity. }
  split; [exact Hfind|]. split; [exact Hroute|].
  unfold getParamsInternal, coerce, run.
  assert (Hrun : forall o : Obj,
            for_of (step (zod schema)) (skipped ++ (key, value) :: rest)%list o
            = Throws (Error ("Could not find shape for key " ++ key))).
  { induction Hskipped as [|[k v] skipped Hv _ IH]; intro o; cbn [app for_of step].
    - apply String.eqb_neq in Hvalue. rewrite Hvalue, Hroute. reflexivity.
    - cbn [snd] in Hv. subst v. cbn [String.eqb bind]. apply IH. }
  rewrite Hrun. reflexivity.
Qed.

Lemma null_shape_raises_shape_error_name :
  no_shape (ZodEffects ZodObject_null) = true /\
  getParamsInternal (H := TestHost) [("q", ""); ("name", "Ada"); ("age", "7")]
    {| zod := ZodEffects ZodObject_null;
       safeParse := fun o => SafeParseSuccess (VObject o) |}
  = Throws (Error "Could not find shape for key name").
Proof.
  assert (Hvalue : "Ada" <> "") by discriminate.
  assert (Hskipped : Forall (fun entry : string * string => snd entry = "") [("q", "")])
    by (constructor; [reflexivity | constructor]).
  split; [reflexivity|].
  exact (proj2 (proj2 (null_shape_raises_shape_error (H := TestHost)
           {| zod := ZodEffects ZodObject_null;
              safeParse := fun o => SafeParseSuccess (VObject o) |}
           [("q", "")] [("age", "7")] "name" "Ada" eq_refl Hskipped Hvalue))).
Defined.

(* ================================================================== *)
(** ** The array marker *)

Lemma strip_marker_absent (k : string) :
  includes "[]" k = false -> strip_marker k = k.
Proof. unfold strip_marker. intros ->. reflexivity. Qed.

Lemma strip_marker_trailing (k : string) :
  includes "[]" k = false -> strip_marker (k ++ "[]") = k.
Proof.
  intro Hk. unfold strip_marker. rewrite includes_marker_app.
  apply replace_marker_app, Hk.
Qed.

Lemma route_marker {H : Host}
  (recur : Obj -> ZodType -> string -> string -> Outcome Obj)
  (shape : Shape) (o : Obj) (k value : string) :
  includes "." k = false ->
  includes "[]" k = false ->
  route recur shape o (k ++ "[]") value = route recur shape o k value.
Proof.
  intros Hdot Hmark. unfold route.
  rewrite includes_dot_app, Hdot. cbn [includes startsWith Ascii.eqb Bool.eqb andb orb].
  cbv zeta. rewrite (strip_marker_trailing _ Hmark), (strip_marker_absent _ Hmark).
  reflexivity.
Qed.

Lemma parseParams_marker {H : Host} (schema : ZodType) (k value : string) :
  includes "." k = false ->
  includes "[]" k = false ->
  forall o,
    parseParams o schema (k ++ "[]") value = parseParams o schema k value \/
    (parseParams o schema (k ++ "[]") value
     = Throws (Error ("Could not find shape for key " ++ k ++ "[]")) /\
     parseParams o schema k value
     = Throws (Error ("Could not find shape for key " ++ k))).
Proof.
  intros Hdot Hmark.
  induction schema using ZodType_nested_ind; intro o;
    try (left;
         rewrite (parseParams_eq o _ (k ++ "[]")), (parseParams_eq o _ k);
         cbn [find_shape instanceof_ZodObject instanceof_ZodEffects orb bind];
         apply route_marker; assumption).
  - rewrite !parseParams_ZodEffects. apply IHschema.
  - right. split; reflexivity.
  - rewrite !parseParams_ZodUnion. revert o.
    induction H0 as [|option options Hopt _ IH]; intro o; cbn [for_of];
      [left; reflexivity|].
    destruct (Hopt o) as [Hsame|[Hmarked Hplain]].
    + rewrite Hsame. destruct (parseParams o option k value); cbn [bind];
        [apply IH | left; reflexivity | left; reflexivity].
    + rewrite Hmarked, Hplain. right. split; reflexivity.
Qed.




(* ================================================================== *)
(** ** The OrFail variant *)

(** C6. [getParamsOrFail] agrees with [getParams]: the data of a Success is
    returned as it is, and a Failure becomes a thrown error whose message is
    the JSON text of the same error mapping. *)
Theorem getParamsOrFail_agrees {H : Host} (params : list (string * string))
  (schema : Schema) :
  (forall data,
     getParams params schema = Returns (Success data) ->
     getParamsOrFail params schema = Returns data) /\
  (forall errors,
     getParams params schema = Returns (Failure errors) ->
     getParamsOrFail params schema = Throws (Error (JSON_stringify errors))).
Proof.
  unfold getParams, getParamsOrFail. split.
  - intros data ->. reflexivity.
  - intros errors ->. reflexivity.
Qed.

Lemma getParamsOrFail_agrees_name :
  (getParams (H := TestHost) [("name", "Ada")]
     name_schema
   = Returns (Success (VObject [("name", VString "Ada")])) /\
   getParamsOrFail (H := TestHost) [("name", "Ada")]
     name_schema
   = Returns (VObject [("name", VString "Ada")])) /\
  (getParams (H := TestHost) [("name", "")]
     name_schema
   = Returns (Failure [("name", Message "Required")]) /\
   getParamsOrFail (H := TestHost) [("name", "")]
     name_schema
   = Throws (Error (@JSON_stringify TestHost [("name", Message "Required")]))).
Proof.
  split.
  - split; [reflexivity|].
    exact (proj1 (getParamsOrFail_agrees (H := TestHost) [("name", "Ada")]
                    name_schema)
             _ eq_refl).
  - split; [reflexivity|].
    exact (proj2 (getParamsOrFail_agrees (H := TestHost) [("name", "")]
                    name_schema)
             _ eq_refl).
Defined.

(* ================================================================== *)
(** ** Error aggregation *)

Lemma addError_keeps (errors errors' : Errors) (key message key0 message0 : string) :
  addError errors key message = Returns errors' ->
  recorded errors key0 message0 -> recorded errors' key0 message0.
Proof.
  unfold addError, recorded.
  destruct (own errors "hasOwnProperty"); [discriminate|].
  destruct (String.eqb_spec key0 key) as [->|Hne].
  - destruct (own errors key) as [[first|messages]|].
    + intros [= <-] ->. rewrite own_set_same. left. reflexivity.
    + intros [= <-] Hin. rewrite own_set_same. apply in_or_app. left. exact Hin.
    + intros _ [].
  - assert (Hother : forall entry, own (set errors key entry) key0 = own errors key0)
      by (intro entry; apply own_set_other; exact Hne).
    destruct (own errors key) as [[first|messages]|].
    + intros [= <-]. rewrite Hother. exact (fun x => x).
    + intros [= <-]. rewrite Hother. exact (fun x => x).
    + destruct (key =? "__proto__"); intros [= <-]; [|rewrite Hother]; exact (fun x => x).
Qed.

Lemma addError_records (errors errors' : Errors) (key message : string) :
  key <> "__proto__" ->
  addError errors key message = Returns errors' ->
  recorded errors' key message.
Proof.
  intro Hproto. unfold addError, recorded.
  destruct (own errors "hasOwnProperty"); [discriminate|].
  destruct (own errors key) as [[first|messages]|].
  - intros [= <-]. rewrite own_set_same. right. left. reflexivity.
  - intros [= <-]. rewrite own_set_same. apply in_or_app. right. left. reflexivity.
  - destruct (String.eqb_spec key "__proto__") as [|_]; [contradiction|].
    intros [= <-]. rewrite own_set_same. reflexivity.
Qed.

(** An issue without a path is filed under the name "undefined", and
    reading [o] for it cannot throw. *)
Lemma record_issue_empty_path {H : Host} (o : Obj) (errors : Errors) (issue : ZodIssue) :
  path issue = [] ->
  record_issue o errors issue = addError errors "undefined" (message issue).
Proof. unfold record_issue. intros ->. reflexivity. Qed.

Lemma record_issue_keeps {H : Host} (o : Obj) (errors errors' : Errors)
  (issue : ZodIssue) (key0 message0 : string) :
  record_issue o errors issue = Returns errors' ->
  recorded errors key0 message0 -> recorded errors' key0 message0.
Proof.
  unfold record_issue.
  destruct (nth_error (path issue) 1), (get o (property_key (nth_error (path issue) 0)));
    try discriminate; apply addError_keeps.
Qed.

Lemma for_of_record_issue_keeps {H : Host} (o : Obj) (issues : list ZodIssue)
  (key0 message0 : string) :
  forall errors errors',
    for_of (record_issue o) issues errors = Returns errors' ->
    recorded errors key0 message0 -> recorded errors' key0 message0.
Proof.
  induction issues as [|issue issues IH]; intros errors errors'; cbn [for_of].
  - intros [= <-]. exact (fun x => x).
  - intro Hrun. apply bind_returns_inv in Hrun as (errors1 & Hstep & Hrest).
    intro Hrec. apply (IH _ _ Hrest). exact (record_issue_keeps _ _ _ _ _ _ Hstep Hrec).
Qed.



(** The loop over the issues throws on an issue with two path segments or
    more whose top-level segment names nothing in the coerced output. *)
Lemma record_issue_absent_field {H : Host} (o : Obj) (errors : Errors)
  (issue : ZodIssue) (key index : PathSegment) (rest : list PathSegment) :
  path issue = key :: index :: rest ->
  get o (property_key (Some key)) = Undefined ->
  record_issue o errors issue
  = Throws (TypeError "Cannot read properties of undefined").
Proof. unfold record_issue. intros -> Hget. cbn [nth_error]. rewrite Hget. reflexivity. Qed.

(** C5, at the input where the code departs from it: validation fails with
    one issue, at the path [address, city], for an input that sets no
    [address]; the call does not return a Failure holding the message under
    "address", it throws a TypeError from the loop over the issues. *)
Theorem nested_issue_on_absent_field_throws :
  coerce (H := TestHost) [("shipping", "true")] (zod shipping_schema)
  = Returns [("shipping", VBoolean true)] /\
  safeParse shipping_schema [("shipping", VBoolean true)]
  = SafeParseError [{| message := "City is required for shipping";
                       path := [PString "address"; PString "city"] |}] /\
  getParamsInternal (H := TestHost) [("shipping", "true")] shipping_schema
  = Throws (TypeError "Cannot read properties of undefined").
Proof.
  assert (Hcoerce : coerce (H := TestHost) [("shipping", "true")] (zod shipping_schema)
                    = Returns [("shipping", VBoolean true)]) by reflexivity.
  split; [exact Hcoerce|]. split; [reflexivity|].
  unfold getParamsInternal. rewrite Hcoerce. cbn [bind].
  change (safeParse shipping_schema [("shipping", VBoolean true)])
    with (SafeParseError (H := TestHost)
            [{| message := "City is required for shipping";
                path := [PString "address"; PString "city"] |}]).
  cbn [for_of].
  rewrite (record_issue_absent_field (H := TestHost) [("shipping", VBoolean true)] []
             {| message := "City is required for shipping";
                path := [PString "address"; PString "city"] |}
             (PString "address") (PString "city") [] eq_refl eq_refl).
  reflexivity.
Qed.

Lemma messages_for_app {H : Host} (key : string) (xs ys : list ZodIssue) :
  messages_for key (xs ++ ys)%list
  = (messages_for key xs ++ messages_for key ys)%list.
Proof. unfold messages_for. rewrite filter_app, map_app. reflexivity. Qed.

Lemma entry_of_snoc (messages : list string) (m : string) :
  entry_of (messages ++ [m]) =
  match entry_of messages with
  | None => Some (Message m)
  | Some (Message first) => Some (Messages [first; m])
  | Some (Messages ms) => Some (Messages (ms ++ [m]))
  end.
Proof. destruct messages as [|m1 [|m2 rest]]; reflexivity. Qed.

Lemma addError_aggregates (errors errors' : Errors) (key message : string)
  (sofar : string -> list string) :
  (forall k, k <> "__proto__" -> own errors k = entry_of (sofar k)) ->
  addError errors key message = Returns errors' ->
  forall k, k <> "__proto__" ->
    own errors' k = entry_of (sofar k ++ (if key =? k then [message] else [])).
Proof.
  intros Hinv Hadd k Hk. unfold addError in Hadd.
  destruct (own errors "hasOwnProperty"); [discriminate|].
  destruct (String.eqb_spec key k) as [->|Hne].
  - rewrite entry_of_snoc, <- (Hinv k Hk).
    destruct (own errors k) as [[first|messages]|].
    + injection Hadd as <-. apply own_set_same.
    + injection Hadd as <-. apply own_set_same.
    + destruct (String.eqb_spec k "__proto__") as [|_]; [contradiction|].
      injection Hadd as <-. apply own_set_same.
  - rewrite app_nil_r, <- (Hinv k Hk).
    assert (Hother : forall entry, own (set errors key entry) k = own errors k)
      by (intro entry; apply own_set_other; congruence).
    destruct (own errors key) as [[first|messages]|].
    + injection Hadd as <-. apply Hother.
    + injection Hadd as <-. apply Hother.
    + destruct (key =? "__proto__"); injection Hadd as <-; [reflexivity | apply Hother].
Qed.

Lemma for_of_record_issue_aggregates {H : Host} (o : Obj) (issues : list ZodIssue) :
  forall done errors errors',
    (forall k, k <> "__proto__" -> own errors k = entry_of (messages_for k done)) ->
    for_of (record_issue o) issues errors = Returns errors' ->
    forall k, k <> "__proto__" ->
      own errors' k = entry_of (messages_for k (done ++ issues)%list).
Proof.
  induction issues as [|issue issues IH]; intros done errors errors' Hinv; cbn [for_of].
  - intros [= <-] k Hk. rewrite app_nil_r. apply Hinv, Hk.
  - intro Hrun. apply bind_returns_inv in Hrun as (errors1 & Hstep & Hrest).
    intros k Hk.
    replace (done ++ issue :: issues)%list with ((done ++ [issue]) ++ issues)%list
      by (rewrite <- app_assoc; reflexivity).
    apply (IH (done ++ [issue])%list errors1 errors'); [|exact Hrest|exact Hk].
    clear k Hk. intros k Hk. rewrite messages_for_app.
    assert (Hadd : addError errors (property_key (nth_error (path issue) 0))
                     (message issue) = Returns errors1).
    { unfold record_issue in Hstep.
      destruct (nth_error (path issue) 1),
               (get o (property_key (nth_error (path issue) 0)));
        try discriminate; exact Hstep. }
    rewrite (addError_aggregates _ _ _ _ (fun k => messages_for k done) Hinv Hadd k Hk).
    unfold messages_for at 3. cbn [filter].
    destruct (property_key (nth_error (path issue) 0) =? k); reflexivity.
Qed.

(** Whenever a parse call returns a Failure, the entry of its error mapping
    under a key (other than [__proto__], which an assignment cannot create)
    is decided by the messages of the issues whose top-level path segment is
    that key, in report order: no entry for none, the message itself for
    one, the sequence of all of them from the second on. *)
Theorem errors_aggregate_in_report_order {H : Host}
  (entries : list (string * string)) (schema : Schema) (o : Obj)
  (issues : list ZodIssue) (errors : Errors) (key : string) :
  coerce entries (zod schema) = Returns o ->
  safeParse schema o = SafeParseError issues ->
  getParamsInternal entries schema = Returns (Failure errors) ->
  key <> "__proto__" ->
  own errors key = entry_of (messages_for key issues).
Proof.
  intros Hco Hsafe Hparse Hkey.
  unfold getParamsInternal in Hparse. rewrite Hco in Hparse. cbn [bind] in Hparse.
  rewrite Hsafe in Hparse.
  apply bind_returns_inv in Hparse as (errors' & Hrun & [= ->]).
  apply (for_of_record_issue_aggregates o issues [] [] errors); auto.
Qed.

Lemma errors_aggregate_username :
  getParamsInternal [("username", "a ")] username_schema
  = Returns (Failure [("username", Messages ["Too short"; "No spaces"])]) /\
  own [("username", Messages ["Too short"; "No spaces"])] "username"
  = Some (Messages ["Too short"; "No spaces"]).
Proof.
  split; [reflexivity|].
  assert (Hkey : "username" <> "__proto__") by discriminate.
  exact (errors_aggregate_in_report_order (H := TestHost)
           [("username", "a ")] username_schema [("username", VString "a ")]
           [{| message := "Too short"; path := [PString "username"] |};
            {| message := "No spaces"; path := [PString "username"] |}]
           [("username", Messages ["Too short"; "No spaces"])] "username"
           eq_refl eq_refl eq_refl Hkey).
Defined.

(* ================================================================== *)
(** ** What a pair can change *)

Section Frame.

Context {H : Host}.

Lemma parseParams_fields (schema : ZodType) (fields : list (string * ZodType)) :
  fields_of schema = Some fields ->
  forall o key value,
    parseParams o schema key value = route parseParams (ShapeRecord fields) o key value.
Proof.
  induction schema; cbn [fields_of]; try discriminate.
  - intros Hf o key value. rewrite parseParams_ZodEffects. apply IHschema, Hf.
  - intros [= ->] o key value. apply parseParams_ZodObject.
Qed.

(** [processDef] throws on a field that is itself an Object. *)
Lemma coerceLeaf_fields (def : ZodType) (fields : list (string * ZodType))
  (value : string) :
  fields_of def = Some fields -> coerceLeaf (leaf_of def) value = None.
Proof.
  induction def; cbn [fields_of leaf_of]; try discriminate.
  - exact IHdef.
  - reflexivity.
Qed.

Lemma assign_frame (o o1 : Obj) (key a : string) (v : Value) :
  assign o key v = Returns o1 -> a <> key -> own o1 a = own o a.
Proof.
  unfold assign. intros Has Hne.
  destruct (own o key).
  - injection Has as <-. apply own_set_other, Hne.
  - destruct (key =? "__proto__").
    + destruct v; try discriminate; injection Has as <-; reflexivity.
    + injection Has as <-. apply own_set_other, Hne.
Qed.

Lemma store_frame (o o1 : Obj) (key a : string) (v : Value) :
  store o key v = Returns o1 -> a <> key -> own o1 a = own o a.
Proof.
  unfold store. intros Hst Hne.
  destruct (get o key) as [[]| |]; try (exact (assign_frame _ _ _ _ _ Hst Hne)).
  injection Hst as <-. apply own_set_other, Hne.
Qed.

Lemma init_array_frame (o : Obj) (key a : string) :
  a <> key -> own (init_array o key) a = own o a.
Proof.
  intro Hne. unfold init_array. destruct (get o key); try reflexivity.
  apply own_set_other, Hne.
Qed.

Lemma processDef_frame (def : ZodType) (o o1 : Obj) (key value a : string) :
  processDef def o key value = Returns o1 -> a <> key -> own o1 a = own o a.
Proof.
  rewrite processDef_eq. destruct (coerceLeaf (leaf_of def) value); [|discriminate].
  intros Hst Hne. rewrite (store_frame _ _ _ _ _ Hst Hne).
  destruct (through_array def); [apply init_array_frame, Hne | reflexivity].
Qed.

Lemma descend_frame (recur : Obj -> ZodType -> string -> string -> Outcome Obj)
  (shape : Shape) (parentProp : string) (rest : list string) (value : string)
  (o0 o1 : Obj) (child : Value) (a : string) :
  descend recur shape parentProp rest value o0 child = Returns o1 ->
  a <> parentProp -> own o1 a = own o0 a.
Proof.
  unfold descend. intros Hd Hne.
  destruct (in_shape shape parentProp).
  - destruct shape as [fields|z]; [|discriminate].
    destruct (own fields parentProp) as [field|]; [|discriminate].
    destruct child; try discriminate.
    apply bind_returns_inv in Hd as (props' & _ & [= <-]).
    apply own_set_other, Hne.
  - injection Hd as <-. reflexivity.
Qed.

Lemma route_frame (recur : Obj -> ZodType -> string -> string -> Outcome Obj)
  (shape : Shape) (o o1 : Obj) (key value a : string) :
  route recur shape o key value = Returns o1 ->
  a <> target key -> own o1 a = own o a.
Proof.
  unfold route, target. destruct (includes "." key).
  - destruct (split dot key) as [|parentProp rest]; cbn [hd].
    + intros [= <-] _. reflexivity.
    + intros Hr Hne. destruct (get o parentProp) as [child| |]; [|discriminate|].
      * exact (descend_frame _ _ _ _ _ _ _ _ _ Hr Hne).
      * rewrite (descend_frame _ _ _ _ _ _ _ _ _ Hr Hne). apply own_set_other, Hne.
  - cbv zeta. intros Hr Hne. destruct shape as [fields|z].
    + destruct (own fields (strip_marker key)) as [def|].
      * exact (processDef_frame _ _ _ _ _ _ Hr Hne).
      * destruct (inherited (strip_marker key)); [discriminate|].
        injection Hr as <-. reflexivity.
    + destruct (zod_member z (strip_marker key)); [discriminate|].
      destruct (inherited (strip_marker key)); [discriminate|].
      injection Hr as <-. reflexivity.
Qed.

(** Routing a pair changes no top-level property but its target. *)
Lemma parseParams_frame (schema : ZodType) (key value a : string) :
  a <> target key ->
  forall o o1, parseParams o schema key value = Returns o1 -> own o1 a = own o a.
Proof.
  intro Hne.
  induction schema using ZodType_nested_ind; intros o o1;
    try (rewrite parseParams_eq;
         cbn [find_shape instanceof_ZodObject instanceof_ZodEffects orb bind];
         intro Hr; exact (route_frame _ _ _ _ _ _ _ Hr Hne)).
  - rewrite parseParams_ZodEffects. apply IHschema.
  - rewrite parseParams_ZodObject_null. discriminate.
  - rewrite parseParams_ZodUnion. revert o.
    induction H0 as [|option options Hopt _ IH]; intro o; cbn [for_of].
    + intros [= <-]. reflexivity.
    + intro Hr. apply bind_returns_inv in Hr as (o' & Hstep & Hrest).
      rewrite (IH _ Hrest). exact (Hopt _ _ Hstep).
Qed.

End Frame.

(* ================================================================== *)
(** ** A field addressed more than once *)

Section Repeated.

Context {H : Host}.

Lemma routed_cons (f key value : string) (entries : list (string * string)) :
  routed f ((key, value) :: entries) =
  if negb (value =? "") && negb (includes "." key) && (strip_marker key =? f)
  then value :: routed f entries
  else routed f entries.
Proof.
  unfold routed. cbn [filter fst snd].
  destruct (negb (value =? "") && negb (includes "." key) && (strip_marker key =? f));
    reflexivity.
Qed.

Lemma below_cons (a key value : string) (entries : list (string * string)) :
  below a ((key, value) :: entries) =
  ((if negb (value =? "") && includes "." key then
      match split dot key with
      | parentProp :: rest => if parentProp =? a then [(join "." rest, value)] else []
      | [] => []
      end
    else []) ++ below a entries)%list.
Proof. reflexivity. Qed.

Lemma below_path_nil (names : list string) : below_path names [] = [].
Proof. induction names as [|a names IH]; [reflexivity | exact IH]. Qed.

Lemma coerceLeaf_not_array (leaf : ZodType) (value : string) (v : Value) :
  coerceLeaf leaf value = Some v -> is_array (Some v) = false.
Proof.
  destruct leaf; cbn [coerceLeaf]; try discriminate; intros [= <-]; try reflexivity.
  - destruct (Number value); reflexivity.
  - destruct (Date_parse value); reflexivity.
Qed.

Lemma inherited_proto (f : string) : inherited f = false -> (f =? "__proto__") = false.
Proof.
  intro Hf. destruct (String.eqb_spec f "__proto__") as [->|]; [discriminate | reflexivity].
Qed.

(** Line 243 on a field that holds no array. *)
Lemma store_scalar (o : Obj) (f : string) (v : Value) :
  inherited f = false -> is_array (own o f) = false ->
  store o f v = Returns (set o f v).
Proof.
  intros Hf Hna. unfold store, get, assign. rewrite Hf.
  destruct (own o f) as [[]|]; try reflexivity; try discriminate.
  rewrite (inherited_proto _ Hf). reflexivity.
Qed.

(** Lines 228-231 and 241 on a field that holds an array or nothing. *)
Lemma store_init_array (o : Obj) (f : string) (v : Value) :
  inherited f = false ->
  own o f = None \/ is_array (own o f) = true ->
  store (init_array o f) f v = Returns (set o f (VArray (items_of (own o f) ++ [v]))).
Proof.
  intros Hf [Ho|Ho].
  - unfold init_array, get. rewrite Ho, Hf. unfold store, get.
    rewrite own_set_same, set_set. reflexivity.
  - destruct (own o f) as [[]|] eqn:Hown; try discriminate.
    unfold init_array, get. rewrite Hown. unfold store, get. rewrite Hown. reflexivity.
Qed.

Section Field.

Variables (schema : ZodType) (fields : list (string * ZodType)).
Variables (f : string) (def : ZodType).
Hypothesis Hfields : fields_of schema = Some fields.
Hypothesis Hdef : own fields f = Some def.
Hypothesis Hf : inherited f = false.

(** The pair of a key without a dot that names [f]. *)
Lemma step_field (o : Obj) (key value : string) :
  (value =? "") = false -> includes "." key = false -> strip_marker key = f ->
  step schema o (key, value) = processDef def o f value.
Proof.
  intros Hv Hk Hs. cbn [step]. rewrite Hv, (parseParams_fields _ _ Hfields).
  unfold route. rewrite Hk. cbv zeta. rewrite Hs, Hdef. reflexivity.
Qed.

(** A pair that does not name [f] leaves it alone. *)
Lemma step_frame (o o1 : Obj) (key value : string) :
  step schema o (key, value) = Returns o1 ->
  (value =? "") = true \/ target key <> f ->
  own o1 f = own o f.
Proof.
  cbn [step]. destruct (value =? "").
  - intros [= <-] _. reflexivity.
  - intros Hr [|Hne]; [discriminate|].
    apply (parseParams_frame schema key value f); [congruence | exact Hr].
Qed.

End Field.

(** The pairs sent below an Object field [a] are routed one by one, in
    input order, in the mapping under [a]. *)
Lemma run_below (schema : ZodType) (fields : list (string * ZodType))
  (a : string) (sa : ZodType) (sfields : list (string * ZodType)) :
  fields_of schema = Some fields ->
  own fields a = Some sa ->
  fields_of sa = Some sfields ->
  inherited a = false ->
  forall entries o o',
    own o a = None \/ (exists c, own o a = Some (VObject c)) ->
    run schema entries o = Returns o' ->
    (below a entries = [] -> own o' a = own o a) /\
    (below a entries <> [] ->
     exists c', run sa (below a entries) (props_of (own o a)) = Returns c' /\
                own o' a = Some (VObject c')).
Proof.
  intros Hfields Hsa Hsub Ha. unfold run.
  induction entries as [|[key value] entries IH]; intros o o' Hinv; cbn [for_of].
  - intros [= <-]. split; [reflexivity | intros []; reflexivity].
  - intro Hrun. apply bind_returns_inv in Hrun as (o1 & Hstep & Hrest).
    rewrite below_cons.
    assert (Hskip : own o1 a = own o a ->
      (below a entries = [] -> own o' a = own o a) /\
      (below a entries <> [] ->
       exists c', for_of (step sa) (below a entries) (props_of (own o a)) = Returns c' /\
                  own o' a = Some (VObject c'))).
    { intro Hsame. rewrite <- Hsame. apply (IH o1 o'); [|exact Hrest].
      rewrite Hsame. exact Hinv. }
    destruct (value =? "") eqn:Hv; cbn [negb andb app].
    { apply Hskip. apply (step_frame schema a o o1 key value Hstep). left. exact Hv. }
    destruct (includes "." key) eqn:Hk.
    2:{ apply Hskip. destruct (String.eqb_spec (strip_marker key) a) as [Hs|Hs].
        - rewrite (step_field schema fields a sa Hfields Hsa o key value Hv Hk Hs),
            processDef_eq, (coerceLeaf_fields _ _ _ Hsub) in Hstep. discriminate.
        - apply (step_frame schema a o o1 key value Hstep). right.
          unfold target. rewrite Hk. exact Hs. }
    pose proof (split_not_nil dot key) as Hnil.
    destruct (split dot key) as [|parentProp rest] eqn:Hsplit; [contradiction|].
    destruct (String.eqb_spec parentProp a) as [->|Hp].
    2:{ cbn [app]. apply Hskip. apply (step_frame schema a o o1 key value Hstep). right.
        unfold target. rewrite Hk, Hsplit. exact Hp. }
    cbn [step] in Hstep. rewrite Hv, (parseParams_fields _ _ Hfields) in Hstep.
    unfold route in Hstep. rewrite Hk, Hsplit in Hstep.
    assert (Hchild : exists c',
      parseParams (props_of (own o a)) sa (join "." rest) value = Returns c' /\
      own o1 a = Some (VObject c')).
    { unfold get in Hstep. rewrite Ha in Hstep.
      destruct Hinv as [Ho|[c Ho]]; rewrite Ho in Hstep; unfold descend, in_shape in Hstep;
        rewrite Hsa in Hstep; apply bind_returns_inv in Hstep as (c' & Hc' & [= <-]);
        exists c'; rewrite Ho; cbn [props_of]; (split; [exact Hc' | apply own_set_same]). }
    destruct Hchild as (c1 & Hc1 & Ho1).
    destruct (IH o1 o' (or_intror (ex_intro _ c1 Ho1)) Hrest) as [Hnone Hsome].
    split; [discriminate|]. intros _. cbn [app for_of step]. rewrite Hv, Hc1. cbn [bind].
    destruct (below a entries) as [|e es] eqn:Hbelow.
    + exists c1. split; [reflexivity|]. rewrite (Hnone eq_refl). exact Ho1.
    + destruct (Hsome ltac:(discriminate)) as (c' & Hc' & Ho').
      rewrite Ho1 in Hc'. exists c'. split; assumption.
Qed.

Lemma value_at_single (o : Obj) (f : string) :
  value_at (VObject o) [f] = own o f.
Proof. cbn [value_at]. destruct (own o f); reflexivity. Qed.

(** *** Through the options of Unions *)

Lemma gather_cons (nodes : option (list ZodType))
  (found : list (option (list ZodType))) (all : list ZodType) :
  gather (nodes :: found) = Some all ->
  exists first rest,
    nodes = Some first /\ gather found = Some rest /\ all = (first ++ rest)%list.
Proof.
  cbn [gather fold_right]. fold (gather found).
  destruct nodes as [first|]; [|discriminate].
  destruct (gather found) as [rest|]; [|discriminate].
  intros [= <-]. exists first, rest. repeat split.
Qed.

Lemma carriers_ZodUnion (a : string) (options : list ZodType) (nodes : list ZodType) :
  carriers a (ZodUnion options) = Some nodes ->
  options <> [] /\ gather (map (carriers a) options) = Some nodes.
Proof.
  cbn [carriers]. destruct options as [|option options]; [discriminate|].
  intro Hg. split; [discriminate | exact Hg].
Qed.

(** A pair whose key, without a dot, names [a] is handed to the nodes of
    [a], one after the other. *)
Lemma parseParams_carriers (a value : string) (schema : ZodType) :
  inherited a = false ->
  forall nodes,
    carriers a schema = Some nodes ->
    forall o key,
      includes "." key = false -> strip_marker key = a ->
      parseParams o schema key value
      = for_of (fun o def => processDef def o a value) nodes o.
Proof.
  intro Ha.
  induction schema using ZodType_nested_ind; intros nodes Hc o key Hdot Hs;
    try discriminate Hc.
  - rewrite parseParams_ZodEffects. exact (IHschema nodes Hc o key Hdot Hs).
  - rewrite parseParams_ZodObject. unfold route. rewrite Hdot. cbv zeta. rewrite Hs.
    cbn [carriers] in Hc. injection Hc as <-.
    destruct (own shape a); cbn [for_of].
    + rewrite bind_Returns. reflexivity.
    + rewrite Ha. reflexivity.
  - rewrite parseParams_ZodUnion.
    apply carriers_ZodUnion in Hc as [_ Hc]. revert nodes Hc o.
    induction H0 as [|option options Hopt _ IH]; intros nodes Hc o; cbn [map] in Hc.
    + injection Hc as <-. reflexivity.
    + apply gather_cons in Hc as (first & rest & Hfirst & Hrest & ->).
      cbn [for_of]. rewrite for_of_app, (Hopt first Hfirst o key Hdot Hs).
      destruct (for_of (fun o def => processDef def o a value) first o) as [o1| |];
        cbn [bind]; [apply (IH rest Hrest) | reflexivity | reflexivity].
Qed.

(** A pair whose key is dotted with first segment [a] is routed, under the
    rest of its key, to the nodes of [a] in turn, inside the mapping under
    [a]. *)
Lemma parseParams_below (a value : string) (schema : ZodType) :
  inherited a = false ->
  forall nodes,
    carriers a schema = Some nodes ->
    forall o key rest,
      includes "." key = true -> split dot key = a :: rest ->
      own o a = None \/ (exists c, own o a = Some (VObject c)) ->
      parseParams o schema key value
      = c' <- for_of (fun c node => parseParams c node (join "." rest) value) nodes
                (props_of (own o a)) ;;
        Returns (set o a (VObject c')).
Proof.
  intro Ha.
  induction schema using ZodType_nested_ind; intros nodes Hc o key rest Hdot Hsplit Ho;
    try discriminate Hc.
  - rewrite parseParams_ZodEffects. exact (IHschema nodes Hc o key rest Hdot Hsplit Ho).
  - rewrite parseParams_ZodObject. unfold route. rewrite Hdot, Hsplit.
    unfold get. rewrite Ha. cbn [carriers] in Hc. injection Hc as <-.
    destruct Ho as [Ho|[c Ho]]; rewrite Ho; unfold descend, in_shape; cbn [props_of];
      destruct (own shape a) as [field|]; cbn [for_of]; try rewrite Ha; cbn [bind].
    + destruct (parseParams [] field (join "." rest) value); cbn [bind];
        [rewrite set_set|..]; reflexivity.
    + reflexivity.
    + destruct (parseParams c field (join "." rest) value); reflexivity.
    + rewrite (set_own_same _ _ _ Ho). reflexivity.
  - rewrite parseParams_ZodUnion.
    apply carriers_ZodUnion in Hc as [Hsome Hc].
    destruct H0 as [|option options Hopt Hopts]; [contradiction|]. clear Hsome.
    cbn [map] in Hc. apply gather_cons in Hc as (first & rest' & Hfirst & Hrest & ->).
    cbn [for_of]. rewrite for_of_app, (Hopt first Hfirst o key rest Hdot Hsplit Ho).
    destruct (for_of (fun c node => parseParams c node (join "." rest) value) first
                (props_of (own o a))) as [c1| |]; cbn [bind]; try reflexivity.
    assert (Hown : own (set o a (VObject c1)) a = Some (VObject c1))
      by apply own_set_same.
    assert (Htail : forall options nodes,
              Forall (fun option =>
                        forall nodes, carriers a option = Some nodes ->
                        forall o key rest,
                          includes "." key = true -> split dot key = a :: rest ->
                          own o a = None \/ (exists c, own o a = Some (VObject c)) ->
                          parseParams o option key value
                          = c' <- for_of (fun c node =>
                                            parseParams c node (join "." rest) value)
                                    nodes (props_of (own o a)) ;;
                            Returns (set o a (VObject c'))) options ->
              gather (map (carriers a) options) = Some nodes ->
              forall o c,
                own o a = Some (VObject c) ->
                for_of (fun o option => parseParams o option key value) options o
                = c' <- for_of (fun c node => parseParams c node (join "." rest) value)
                          nodes c ;;
                  Returns (set o a (VObject c'))).
    { clear - Ha Hdot Hsplit. intros tail found Hall. revert found.
      induction Hall as [|option tail Hopt _ IH]; intros found Hc o c Ho;
        cbn [map] in Hc.
      - injection Hc as <-. cbn [for_of bind]. rewrite (set_own_same _ _ _ Ho).
        reflexivity.
      - apply gather_cons in Hc as (first & others & Hfirst & Hothers & ->).
        cbn [for_of]. rewrite for_of_app.
        rewrite (Hopt first Hfirst o key rest Hdot Hsplit
                   (or_intror (ex_intro _ c Ho))).
        rewrite Ho. cbn [props_of].
        destruct (for_of (fun c node => parseParams c node (join "." rest) value)
                    first c) as [c1| |]; cbn [bind]; try reflexivity.
        rewrite (IH others Hothers (set o a (VObject c1)) c1 (own_set_same _ _ _)).
        destruct (for_of (fun c node => parseParams c node (join "." rest) value)
                    others c1) as [c2| |]; cbn [bind]; try reflexivity.
        rewrite set_set. reflexivity. }
    rewrite (Htail options rest' Hopts Hrest _ c1 Hown).
    destruct (for_of (fun c node => parseParams c node (join "." rest) value) rest' c1)
      as [c2| |]; cbn [bind]; try reflexivity.
    rewrite set_set. reflexivity.
Qed.

(** A node that resolves to field mappings is none that a value is coerced
    to. *)
Lemma carriers_unhandled (b value : string) (node : ZodType) (nodes : list ZodType) :
  carriers b node = Some nodes -> coerceLeaf (leaf_of node) value = None.
Proof.
  revert nodes. induction node; intros nodes Hc; try discriminate Hc;
    cbn [leaf_of coerceLeaf]; try reflexivity.
  exact (IHnode nodes Hc).
Qed.

(** Nodes that pass no Array wrapper overwrite one another: the last one's
    coercion is what the field holds. *)
Lemma processDef_scalars (f value : string) :
  inherited f = false ->
  forall defs o o',
    Forall (fun def => through_array def = false) defs ->
    is_array (own o f) = false ->
    for_of (fun o def => processDef def o f value) defs o = Returns o' ->
    is_array (own o' f) = false /\
    match defs with
    | [] => o' = o
    | _ => exists parsed,
             coerceLeaf (leaf_of (last defs ZodString)) value = Some parsed /\
             own o' f = Some parsed
    end.
Proof.
  intro Hf. induction defs as [|def defs IH]; intros o o' Hscalar Hna; cbn [for_of].
  - intros [= <-]. split; [exact Hna | reflexivity].
  - intro Hrun. apply bind_returns_inv in Hrun as (o1 & Hstep & Hrest).
    rewrite processDef_eq, (Forall_inv Hscalar) in Hstep.
    destruct (coerceLeaf (leaf_of def) value) as [v|] eqn:Hleaf; [|discriminate].
    rewrite (store_scalar _ _ _ Hf Hna) in Hstep. injection Hstep as <-.
    pose proof (coerceLeaf_not_array _ _ _ Hleaf) as Hv.
    destruct (IH (set o f v) o' (Forall_inv_tail Hscalar)) as [Hna' Hlast];
      [rewrite own_set_same; exact Hv | exact Hrest |].
    split; [exact Hna'|].
    destruct defs as [|def' defs'].
    + subst o'. exists v. split; [exact Hleaf | apply own_set_same].
    + exact Hlast.
Qed.

Section Carried.

Variables (schema : ZodType) (f : string) (defs : list ZodType).
Hypothesis Hcarriers : carriers f schema = Some defs.
Hypothesis Hf : inherited f = false.

Lemma step_carried (o : Obj) (key value : string) :
  (value =? "") = false -> includes "." key = false -> strip_marker key = f ->
  step schema o (key, value) = for_of (fun o def => processDef def o f value) defs o.
Proof.
  intros Hv Hk Hs. cbn [step]. rewrite Hv.
  exact (parseParams_carriers f value schema Hf defs Hcarriers o key Hk Hs).
Qed.

Lemma run_scalar_field :
  defs <> [] ->
  Forall (fun def => through_array def = false) defs ->
  forall entries o o',
    (forall key value, In (key, value) entries -> value <> "" ->
       includes "." key = true -> target key <> f) ->
    is_array (own o f) = false ->
    run schema entries o = Returns o' ->
    is_array (own o' f) = false /\
    match routed f entries with
    | [] => own o' f = own o f
    | _ => exists parsed,
             coerceLeaf (leaf_of (last defs ZodString)) (last (routed f entries) "")
             = Some parsed /\
             own o' f = Some parsed
    end.
Proof.
  intros Hsome Hscalar. unfold run.
  induction entries as [|[key value] entries IH]; intros o o' Hdots Hna; cbn [for_of].
  - intros [= <-]. split; [exact Hna | reflexivity].
  - intro Hrun. apply bind_returns_inv in Hrun as (o1 & Hstep & Hrest).
    assert (Hdots' : forall key value, In (key, value) entries -> value <> "" ->
              includes "." key = true -> target key <> f)
      by (intros k v Hin; apply Hdots; right; exact Hin).
    rewrite routed_cons.
    destruct (value =? "") eqn:Hv; cbn [negb andb].
    { rewrite <- (step_frame _ _ _ _ _ _ Hstep (or_introl Hv)).
      apply (IH o1 o' Hdots'); [|exact Hrest].
      rewrite (step_frame _ _ _ _ _ _ Hstep (or_introl Hv)). exact Hna. }
    destruct (includes "." key) eqn:Hk; cbn [negb andb].
    { assert (Hne : target key <> f).
      { apply (Hdots key value); [left; reflexivity | | exact Hk].
        intros ->. discriminate. }
      rewrite <- (step_frame _ _ _ _ _ _ Hstep (or_intror Hne)).
      apply (IH o1 o' Hdots'); [|exact Hrest].
      rewrite (step_frame _ _ _ _ _ _ Hstep (or_intror Hne)). exact Hna. }
    destruct (String.eqb_spec (strip_marker key) f) as [Hs|Hs].
    2:{ assert (Hne : target key <> f) by (unfold target; rewrite Hk; exact Hs).
        rewrite <- (step_frame _ _ _ _ _ _ Hstep (or_intror Hne)).
        apply (IH o1 o' Hdots'); [|exact Hrest].
        rewrite (step_frame _ _ _ _ _ _ Hstep (or_intror Hne)). exact Hna. }
    rewrite (step_carried _ _ _ Hv Hk Hs) in Hstep.
    destruct (processDef_scalars f value Hf defs o o1 Hscalar Hna Hstep) as [Hna1 Hlast].
    destruct defs as [|def defs']; [contradiction|].
    destruct Hlast as (v & Hleaf & Hown1).
    destruct (IH o1 o' Hdots' Hna1 Hrest) as [Hna' Hown'].
    split; [exact Hna'|].
    destruct (routed f entries) as [|v1 vs].
    + exists v. split; [exact Hleaf|]. rewrite Hown'. exact Hown1.
    + exact Hown'.
Qed.

Lemma run_array_field (def : ZodType) :
  defs = [def] ->
  through_array def = true ->
  forall entries o o',
    (forall key value, In (key, value) entries -> value <> "" ->
       includes "." key = true -> target key <> f) ->
    own o f = None \/ is_array (own o f) = true ->
    run schema entries o = Returns o' ->
    (own o' f = None \/ is_array (own o' f) = true) /\
    exists parsed,
      map Some parsed = map (coerceLeaf (leaf_of def)) (routed f entries) /\
      own o' f = match routed f entries with
                 | [] => own o f
                 | _ => Some (VArray (items_of (own o f) ++ parsed))
                 end.
Proof.
  intros Hone Harray. unfold run.
  induction entries as [|[key value] entries IH]; intros o o' Hdots Hinv; cbn [for_of].
  - intros [= <-]. split; [exact Hinv|]. exists []. split; reflexivity.
  - intro Hrun. apply bind_returns_inv in Hrun as (o1 & Hstep & Hrest).
    assert (Hdots' : forall key value, In (key, value) entries -> value <> "" ->
              includes "." key = true -> target key <> f)
      by (intros k v Hin; apply Hdots; right; exact Hin).
    rewrite routed_cons.
    destruct (value =? "") eqn:Hv; cbn [negb andb].
    { rewrite <- (step_frame _ _ _ _ _ _ Hstep (or_introl Hv)).
      apply (IH o1 o' Hdots'); [|exact Hrest].
      rewrite (step_frame _ _ _ _ _ _ Hstep (or_introl Hv)). exact Hinv. }
    destruct (includes "." key) eqn:Hk; cbn [negb andb].
    { assert (Hne : target key <> f).
      { apply (Hdots key value); [left; reflexivity | | exact Hk].
        intros ->. discriminate. }
      rewrite <- (step_frame _ _ _ _ _ _ Hstep (or_intror Hne)).
      apply (IH o1 o' Hdots'); [|exact Hrest].
      rewrite (step_frame _ _ _ _ _ _ Hstep (or_intror Hne)). exact Hinv. }
    destruct (String.eqb_spec (strip_marker key) f) as [Hs|Hs].
    2:{ assert (Hne : target key <> f) by (unfold target; rewrite Hk; exact Hs).
        rewrite <- (step_frame _ _ _ _ _ _ Hstep (or_intror Hne)).
        apply (IH o1 o' Hdots'); [|exact Hrest].
        rewrite (step_frame _ _ _ _ _ _ Hstep (or_intror Hne)). exact Hinv. }
    rewrite (step_carried _ _ _ Hv Hk Hs), Hone in Hstep. cbn [for_of] in Hstep.
    rewrite bind_Returns, processDef_eq, Harray in Hstep.
    destruct (coerceLeaf (leaf_of def) value) as [v|] eqn:Hleaf; [|discriminate].
    rewrite (store_init_array _ _ _ Hf Hinv) in Hstep. injection Hstep as <-.
    destruct (IH (set o f (VArray (items_of (own o f) ++ [v]))) o' Hdots')
      as (Hinv' & parsed & Hparsed & Hown');
      [right; rewrite own_set_same; reflexivity | exact Hrest |].
    split; [exact Hinv'|]. exists (v :: parsed). split.
    + cbn [map]. rewrite Hleaf, Hparsed. reflexivity.
    + rewrite Hown', own_set_same. cbn [items_of].
      destruct (routed f entries) as [|v1 vs].
      * destruct parsed; [|discriminate]. reflexivity.
      * rewrite <- app_assoc. reflexivity.
Qed.

End Carried.

(** The pairs sent below a field [a] whose nodes resolve to field mappings
    are routed one by one, in input order, in the mapping under [a], to each
    of these nodes in turn. *)
Lemma run_below_carriers (schema : ZodType) (a b : string)
  (nodes deeper : list ZodType) :
  carriers a schema = Some nodes ->
  carriers b (ZodUnion nodes) = Some deeper ->
  inherited a = false ->
  forall entries o o',
    own o a = None \/ (exists c, own o a = Some (VObject c)) ->
    run schema entries o = Returns o' ->
    (below a entries = [] -> own o' a = own o a) /\
    (below a entries <> [] ->
     exists c', run (ZodUnion nodes) (below a entries) (props_of (own o a)) = Returns c' /\
                own o' a = Some (VObject c')).
Proof.
  intros Hnodes Hdeeper Ha.
  assert (Hthrows : forall o value,
            for_of (fun o def => processDef def o a value) nodes o
            = Throws (Error ("Unexpected type " ++ typeName_of (leaf_of (hd ZodString nodes))
                             ++ " for key " ++ a))).
  { intros o value. apply carriers_ZodUnion in Hdeeper as [Hsome Hg].
    destruct nodes as [|node nodes']; [contradiction|].
    cbn [map] in Hg. apply gather_cons in Hg as (first & _ & Hfirst & _ & _).
    cbn [for_of hd]. rewrite processDef_eq, (carriers_unhandled _ value _ _ Hfirst).
    reflexivity. }
  unfold run.
  induction entries as [|[key value] entries IH]; intros o o' Hinv; cbn [for_of].
  - intros [= <-]. split; [reflexivity | intros []; reflexivity].
  - intro Hrun. apply bind_returns_inv in Hrun as (o1 & Hstep & Hrest).
    rewrite below_cons.
    assert (Hskip : own o1 a = own o a ->
      (below a entries = [] -> own o' a = own o a) /\
      (below a entries <> [] ->
       exists c', for_of (step (ZodUnion nodes)) (below a entries) (props_of (own o a))
                  = Returns c' /\
                  own o' a = Some (VObject c'))).
    { intro Hsame. rewrite <- Hsame. apply (IH o1 o'); [|exact Hrest].
      rewrite Hsame. exact Hinv. }
    destruct (value =? "") eqn:Hv; cbn [negb andb app].
    { apply Hskip. apply (step_frame schema a o o1 key value Hstep). left. exact Hv. }
    destruct (includes "." key) eqn:Hk.
    2:{ apply Hskip. destruct (String.eqb_spec (strip_marker key) a) as [Hs|Hs].
        - rewrite (step_carried schema a nodes Hnodes Ha o key value Hv Hk Hs), Hthrows
            in Hstep. discriminate.
        - apply (step_frame schema a o o1 key value Hstep). right.
          unfold target. rewrite Hk. exact Hs. }
    pose proof (split_not_nil dot key) as Hnil.
    destruct (split dot key) as [|parentProp rest] eqn:Hsplit; [contradiction|].
    destruct (String.eqb_spec parentProp a) as [->|Hp].
    2:{ cbn [app]. apply Hskip. apply (step_frame schema a o o1 key value Hstep). right.
        unfold target. rewrite Hk, Hsplit. exact Hp. }
    cbn [step] in Hstep. rewrite Hv in Hstep.
    rewrite (parseParams_below a value schema Ha nodes Hnodes o key rest Hk Hsplit Hinv)
      in Hstep.
    apply bind_returns_inv in Hstep as (c1 & Hc1 & [= <-]).
    assert (Ho1 : own (set o a (VObject c1)) a = Some (VObject c1)) by apply own_set_same.
    destruct (IH _ o' (or_intror (ex_intro _ c1 Ho1)) Hrest) as [Hnone Hsome].
    split; [discriminate|]. intros _. cbn [app for_of step]. rewrite Hv.
    rewrite parseParams_ZodUnion, Hc1. cbn [bind].
    destruct (below a entries) as [|e es] eqn:Hbelow.
    + exists c1. split; [reflexivity|]. rewrite (Hnone eq_refl). exact Ho1.
    + destruct (Hsome ltac:(discriminate)) as (c' & Hc' & Ho').
      rewrite Ho1 in Hc'. exists c'. split; assumption.
Qed.

Lemma carriers_at_deeper (schema : ZodType) (names : list string) (f : string)
  (defs : list ZodType) :
  carriers_at schema names f = Some defs ->
  exists b deeper, carriers b schema = Some deeper.
Proof.
  destruct names as [|a names]; cbn [carriers_at].
  - intro Hc. exists f, defs. exact Hc.
  - destruct (carriers a schema) as [nodes|] eqn:Hnodes; [|discriminate].
    intros _. exists a, nodes. exact Hnodes.
Qed.


End Repeated.

(* ================================================================== *)
(** ** Empty values *)

Lemma run_skips_empty {H : Host} (schema : ZodType)
  (entries : list (string * string)) :
  forall o,
    run schema (filter (fun entry => negb (snd entry =? "")) entries) o
    = run schema entries o.
Proof.
  unfold run.
  induction entries as [|[key value] entries IH]; intro o; [reflexivity|].
  cbn [filter snd]. destruct (value =? "") eqn:Hv; cbn [negb for_of step].
  - rewrite Hv. cbn [bind]. apply IH.
  - rewrite Hv. destruct (parseParams o schema key value); cbn [bind];
      [apply IH | reflexivity | reflexivity].
Qed.

(** A run changes no property that none of its pairs with a value
    targets. *)
Lemma run_frame {H : Host} (schema : ZodType) (f : string)
  (entries : list (string * string)) :
  (forall key value, In (key, value) entries -> target key = f -> value = "") ->
  forall o o', run schema entries o = Returns o' -> own o' f = own o f.
Proof.
  unfold run. induction entries as [|[key value] entries IH]; intros Hempty o o';
    cbn [for_of].
  - intros [= <-]. reflexivity.
  - intro Hrun. apply bind_returns_inv in Hrun as (o1 & Hstep & Hrest).
    rewrite (IH (fun k v Hin => Hempty k v (or_intror Hin)) o1 o' Hrest).
    apply (step_frame schema f o o1 key value Hstep).
    destruct (String.eqb_spec value "") as [|Hvalue]; [left; reflexivity | right].
    intro Htarget. exact (Hvalue (Hempty key value (or_introl eq_refl) Htarget)).
Qed.

(** C2. A pair whose value is the empty string is passed over before
    anything is coerced or assigned: the coerced output, and with it the
    result of the parse call, is that of the input without such pairs; a
    field addressed by such pairs only is absent from the coerced output,
    and an input of such pairs only leaves the output empty; and
    {"name": ""} against an optional string field [name] is Success with
    the empty object, the validator accepting the empty object as it
    stands. *)
Theorem empty_values_are_absent {H : Host} :
  (forall entries schema,
     coerce entries schema
     = coerce (filter (fun entry => negb (snd entry =? "")) entries) schema) /\
  (forall entries schema,
     getParamsInternal entries schema
     = getParamsInternal (filter (fun entry => negb (snd entry =? "")) entries) schema) /\
  (forall entries schema o f,
     coerce entries schema = Returns o ->
     (forall key value, In (key, value) entries -> target key = f -> value = "") ->
     own o f = None) /\
  (forall entries schema,
     (forall key value, In (key, value) entries -> value = "") ->
     coerce entries schema = Returns []) /\
  (forall validate,
     validate [] = SafeParseSuccess (VObject []) ->
     getParamsInternal [("name", "")]
       {| zod := ZodObject [("name", ZodOptional ZodString)]; safeParse := validate |}
     = Returns (Success (VObject []))).
Proof.
  split; [|split; [|split; [|split]]].
  - intros entries schema. unfold coerce. symmetry. apply run_skips_empty.
  - intros entries schema. unfold getParamsInternal, coerce.
    rewrite run_skips_empty. reflexivity.
  - intros entries schema o f Hrun Hempty.
    exact (run_frame schema f entries Hempty [] o Hrun).
  - intros entries schema Hall. unfold coerce, run.
    induction entries as [|[key value] entries IH]; [reflexivity|].
    cbn [for_of step]. rewrite (Hall key value (or_introl eq_refl)).
    cbn [String.eqb bind].
    apply IH. intros k v Hin. apply (Hall k v). right. exact Hin.
  - intros validate Hv. unfold getParamsInternal. cbn. rewrite Hv. reflexivity.
Qed.

Lemma empty_values_are_absent_name :
  (fun o : Obj (H := TestHost) => SafeParseSuccess (VObject o)) []
  = SafeParseSuccess (VObject []) /\
  getParamsInternal (H := TestHost) [("name", "")]
    {| zod := ZodObject [("name", ZodOptional ZodString)];
       safeParse := fun o => SafeParseSuccess (VObject o) |}
  = Returns (Success (VObject [])).
Proof.
  split; [reflexivity|].
  destruct (empty_values_are_absent (H := TestHost)) as (_ & _ & _ & _ & Hname).
  exact (Hname (fun o => SafeParseSuccess (VObject o)) eq_refl).
Defined.




(* ================================================================== *)
(** ** Parsing what was serialised *)

Lemma append_empty_r (s : string) : s ++ "" = s.
Proof. induction s as [|c s IH]; cbn [append]; [reflexivity | rewrite IH; reflexivity]. Qed.

Lemma own_absent_other {A : Type} (o : list (string * A)) (k k' : string) (v : A) :
  own o k = None -> In (k', v) o -> k' <> k.
Proof.
  intros Ho Hin ->. induction o as [|[k0 v0] o IH]; [contradiction|].
  cbn [own] in Ho. destruct (String.eqb_spec k0 k) as [|Hne]; [discriminate|].
  destruct Hin as [[= -> _]|Hin]; [contradiction | exact (IH Ho Hin)].
Qed.

Lemma set_last {A : Type} (o : list (string * A)) (k : string) (v w : A) :
  own o k = None -> set (o ++ [(k, v)])%list k w = (o ++ [(k, w)])%list.
Proof. intro Ho. rewrite <- (set_absent o k v Ho), set_set. apply set_absent, Ho. Qed.

Section Reparse.

Context {H : Host}.

Lemma run_app (schema : ZodType) (xs ys : list (string * string)) (o : Obj) :
  run schema (xs ++ ys)%list o = bind (run schema xs o) (run schema ys).
Proof. apply for_of_app. Qed.

(** The text of a scalar is read back as that scalar. *)
Lemma leaf_typed_reads_back (leaf : ZodType) (v : Value) :
  leaf_typed leaf v ->
  exists text, flat v = [("", text)] /\ text <> "" /\ coerceLeaf leaf text = Some v.
Proof.
  destruct leaf, v; cbn [leaf_typed]; try contradiction.
  - intro Hs. exists s. repeat split; assumption.
  - intro Hs. exists s. repeat split; assumption.
  - intros [Hne Hn]. exists (String_of_number n). cbn [flat coerceLeaf].
    rewrite Hn. repeat split; assumption.
  - intros [Hne Hd]. exists (toISOString d). cbn [flat coerceLeaf].
    rewrite Hd. repeat split; assumption.
  - intros _. exists (if b then "true" else "false"). destruct b; repeat split; discriminate.
  - intro Hs. exists s. repeat split; assumption.
  - intro Hs. exists s. repeat split; assumption.
Qed.

Lemma serialize_cons (prop : string * Value) (o : Obj) :
  serialize (prop :: o) = (serialize_property prop ++ serialize o)%list.
Proof. reflexivity. Qed.

(** The pairs of a nested mapping are those of its properties, with the
    name of the mapping and a dot before each key. *)
Lemma flat_VObject (props : Obj) :
  flat (VObject props) = map (fun e => ("." ++ fst e, snd e)) (serialize props).
Proof.
  cbn [flat]. unfold serialize.
  induction props as [|[k v] props IH]; [reflexivity|].
  cbn [flat_map]. rewrite map_app, IH. f_equal.
  unfold serialize_property. rewrite map_map. reflexivity.
Qed.

Lemma serialize_property_VObject (k : string) (props : Obj) :
  serialize_property (k, VObject props)
  = map (fun e => (k ++ "." ++ fst e, snd e)) (serialize props).
Proof.
  unfold serialize_property. cbn [fst snd]. rewrite flat_VObject, map_map. reflexivity.
Qed.

Section Property.

Variables (schema : ZodType) (fields : list (string * ZodType)).
Variables (k : string) (def : ZodType).
Hypothesis Hfields : fields_of schema = Some fields.
Hypothesis Hdef : own fields k = Some def.
Hypothesis Hk : plain_name k.

Lemma run_leaf_property (v : Value) (acc : Obj) :
  through_array def = false ->
  leaf_typed (leaf_of def) v ->
  own acc k = None ->
  run schema (serialize_property (k, v)) acc = Returns (acc ++ [(k, v)])%list.
Proof.
  intros Hscalar Hv Hacc. destruct Hk as (Hdot & Hmark & Hinh).
  destruct (leaf_typed_reads_back _ _ Hv) as (text & Hflat & Hne & Hleaf).
  unfold serialize_property, run. cbn [fst snd]. rewrite Hflat.
  cbn [map fst snd for_of]. rewrite append_empty_r.
  rewrite (step_field schema fields k def Hfields Hdef acc k text);
    [ | apply String.eqb_neq; exact Hne | exact Hdot | apply strip_marker_absent; exact Hmark ].
  rewrite processDef_eq, Hleaf, Hscalar.
  rewrite (store_scalar acc k v Hinh); [|rewrite Hacc; reflexivity].
  cbn [bind]. rewrite (set_absent acc k v Hacc). reflexivity.
Qed.

Lemma run_array_items (Harray : through_array def = true) :
  forall items item acc,
    Forall (leaf_typed (leaf_of def)) (item :: items) ->
    own acc k = None \/ is_array (own acc k) = true ->
    run schema (serialize_property (k, VArray (item :: items))) acc
    = Returns (set acc k (VArray (items_of (own acc k) ++ item :: items))).
Proof.
  destruct Hk as (Hdot & Hmark & Hinh).
  assert (Hone : forall item acc,
    leaf_typed (leaf_of def) item ->
    own acc k = None \/ is_array (own acc k) = true ->
    run schema (serialize_property (k, VArray [item])) acc
    = Returns (set acc k (VArray (items_of (own acc k) ++ [item])))).
  { intros item acc Hitem Hacc.
    destruct (leaf_typed_reads_back _ _ Hitem) as (text & Hflat & Hne & Hleaf).
    unfold serialize_property, run. cbn [fst snd flat flat_map]. rewrite Hflat.
    cbn [map fst snd app for_of].
    replace (k ++ "[]" ++ "") with (k ++ "[]") by reflexivity.
    rewrite (step_field schema fields k def Hfields Hdef acc (k ++ "[]") text);
      [ | apply String.eqb_neq; exact Hne
        | rewrite includes_dot_app, Hdot; reflexivity
        | apply strip_marker_trailing; exact Hmark ].
    rewrite processDef_eq, Hleaf, Harray.
    rewrite (store_init_array acc k item Hinh Hacc). reflexivity. }
  induction items as [|next items IH]; intros item acc Hall Hacc.
  - apply Hone; [exact (Forall_inv Hall) | exact Hacc].
  - replace (serialize_property (k, VArray (item :: next :: items)))
      with (serialize_property (k, VArray [item])
            ++ serialize_property (k, VArray (next :: items)))%list.
    2:{ unfold serialize_property. cbn [fst snd flat flat_map].
        rewrite app_nil_r, !map_app. reflexivity. }
    rewrite run_app, (Hone item acc (Forall_inv Hall) Hacc). cbn [bind].
    rewrite (IH next _ (Forall_inv_tail Hall));
      [|right; rewrite own_set_same; reflexivity].
    rewrite own_set_same, set_set. cbn [items_of].
    rewrite <- app_assoc. reflexivity.
Qed.

(** Pairs under keys [k.key] act on the mapping under [k] as the pairs under
    the keys [key] act on that mapping by itself. *)
Lemma run_lift :
  forall es o c c',
    Forall (fun e => snd e <> "") es ->
    own o k = Some (VObject c) ->
    run def es c = Returns c' ->
    run schema (map (fun e => (k ++ "." ++ fst e, snd e)) es) o
    = Returns (set o k (VObject c')).
Proof.
  destruct Hk as (Hdot & Hmark & Hinh). unfold run.
  induction es as [|[key text] es IH]; intros o c c' Hne Ho; cbn [map for_of fst snd].
  - intros [= <-]. rewrite (set_own_same _ _ _ Ho). reflexivity.
  - intro Hrun. apply bind_returns_inv in Hrun as (c1 & Hstep & Hrest).
    pose proof (Forall_inv Hne) as Htext. cbn [snd] in Htext.
    apply String.eqb_neq in Htext. cbn [step] in Hstep. rewrite Htext in Hstep.
    cbn [step]. rewrite Htext, (parseParams_fields _ _ Hfields).
    unfold route. rewrite includes_dot_app, Hdot.
    replace (includes "." ("." ++ key)) with true by reflexivity. cbn [orb].
    rewrite (split_dot_app _ _ Hdot), (get_own _ _ _ Ho).
    unfold descend, in_shape. rewrite Hdef, join_split, Hstep. cbn [bind].
    rewrite (IH _ c1 c' (Forall_inv_tail Hne) (own_set_same _ _ _) Hrest), set_set.
    reflexivity.
Qed.

Lemma run_lift_new :
  forall es o c',
    es <> [] ->
    Forall (fun e => snd e <> "") es ->
    own o k = None ->
    run def es [] = Returns c' ->
    run schema (map (fun e => (k ++ "." ++ fst e, snd e)) es) o
    = Returns (set o k (VObject c')).
Proof.
  intros es o c' Hnil Hne Ho Hrun.
  rewrite <- (set_set o k (VObject []) (VObject c')).
  destruct Hk as (Hdot & Hmark & Hinh).
  destruct es as [|[key text] es]; [contradiction|].
  unfold run in *. cbn [map for_of fst snd] in *.
  apply bind_returns_inv in Hrun as (c1 & Hstep & Hrest).
  pose proof (Forall_inv Hne) as Htext. cbn [snd] in Htext.
  apply String.eqb_neq in Htext. cbn [step] in Hstep. rewrite Htext in Hstep.
  cbn [step]. rewrite Htext, (parseParams_fields _ _ Hfields).
  unfold route. rewrite includes_dot_app, Hdot.
  replace (includes "." ("." ++ key)) with true by reflexivity. cbn [orb].
  rewrite (split_dot_app _ _ Hdot), (get_undefined _ _ Ho Hinh).
  unfold descend, in_shape. rewrite Hdef, join_split, Hstep. cbn [bind].
  fold (run schema (map (fun e => (k ++ "." ++ fst e, snd e)) es)
          (set (set o k (VObject [])) k (VObject c1))).
  rewrite (run_lift es _ c1 c' (Forall_inv_tail Hne) (own_set_same _ _ _) Hrest).
  rewrite set_set. reflexivity.
Qed.

End Property.

(** Coercing the serialisation of a conforming output rebuilds it, property
    by property, after whatever the output held before. *)
Lemma run_serialize :
  (forall fields o,
     conforms fields o ->
     (forall schema acc,
        fields_of schema = Some fields ->
        (forall k v, In (k, v) o -> own acc k = None) ->
        run schema (serialize o) acc = Returns (acc ++ o)%list) /\
     Forall (fun e => snd e <> "") (serialize o) /\
     (o <> [] -> serialize o <> [])) /\
  (forall def v,
     typed def v ->
     (forall schema fields k acc,
        fields_of schema = Some fields ->
        own fields k = Some def ->
        plain_name k ->
        own acc k = None ->
        run schema (serialize_property (k, v)) acc = Returns (acc ++ [(k, v)])%list) /\
     Forall (fun e => snd e <> "") (flat v) /\
     flat v <> []).
Proof.
  apply conforms_typed_ind.
  - intros fields. split; [|split].
    + intros schema acc _ _. rewrite app_nil_r. reflexivity.
    + constructor.
    + intros []. reflexivity.
  - intros fields k v o def Hk Hdef _ (Hprop & Hne & Hnil) Ho _ (Hrest & Hne' & _).
    split; [|split].
    + intros schema acc Hfields Hacc. rewrite serialize_cons, run_app.
      rewrite (Hprop schema fields k acc Hfields Hdef Hk (Hacc k v (or_introl eq_refl))).
      cbn [bind]. rewrite (Hrest schema _ Hfields).
      * rewrite <- app_assoc. reflexivity.
      * intros k' v' Hin. rewrite own_app, (Hacc k' v' (or_intror Hin)). cbn [own].
        destruct (String.eqb_spec k k') as [<-|_]; [|reflexivity].
        exfalso. exact (own_absent_other _ _ _ _ Ho Hin eq_refl).
    + rewrite serialize_cons. apply Forall_app. split; [|exact Hne'].
      unfold serialize_property. rewrite Forall_map. exact Hne.
    + intros _. rewrite serialize_cons. unfold serialize_property. cbn [snd].
      destruct (flat v); [contradiction | discriminate].
  - intros def sub props Hsub Hprops _ (Hrun & Hne & Hnil). split; [|split].
    + intros schema fields k acc Hfields Hdef Hk Hacc.
      rewrite serialize_property_VObject.
      rewrite (run_lift_new schema fields k def Hfields Hdef Hk (serialize props) acc props
                 (Hnil Hprops) Hne Hacc (Hrun def [] Hsub (fun _ _ _ => eq_refl))).
      rewrite (set_absent acc k _ Hacc). reflexivity.
    + rewrite flat_VObject, Forall_map. exact Hne.
    + rewrite flat_VObject. pose proof (Hnil Hprops) as Hs.
      destruct (serialize props); [contradiction | discriminate].
  - intros def items Harray Hitems Hall. split; [|split].
    + intros schema fields k acc Hfields Hdef Hk Hacc.
      destruct items as [|item items]; [contradiction|].
      rewrite (run_array_items schema fields k def Hfields Hdef Hk Harray items item acc
                 Hall (or_introl Hacc)).
      rewrite Hacc. cbn [items_of app]. rewrite (set_absent acc k _ Hacc). reflexivity.
    + cbn [flat]. clear Hitems. induction Hall as [|item items Hitem _ IH]; [constructor|].
      cbn [flat_map]. apply Forall_app. split; [|exact IH].
      destruct (leaf_typed_reads_back _ _ Hitem) as (text & -> & Hne & _).
      constructor; [exact Hne | constructor].
    + destruct items as [|item items]; [contradiction|]. cbn [flat flat_map].
      destruct (leaf_typed_reads_back _ _ (Forall_inv Hall)) as (text & -> & _ & _).
      discriminate.
  - intros def v Hscalar Hv. split; [|split].
    + intros schema fields k acc Hfields Hdef Hk Hacc.
      exact (run_leaf_property schema fields k def Hfields Hdef Hk v acc Hscalar Hv Hacc).
    + destruct (leaf_typed_reads_back _ _ Hv) as (text & -> & Hne & _).
      constructor; [exact Hne | constructor].
    + destruct (leaf_typed_reads_back _ _ Hv) as (text & -> & _ & _). discriminate.
Qed.

End Reparse.




(* ================================================================== *)
(** ** Pairs that the schema has no place for *)

Section Unplaced.

Context {H : Host}.

Lemma step_ignored (schema : ZodType) (fields : list (string * ZodType))
  (o : Obj) (key value : string) :
  fields_of schema = Some fields ->
  ignored fields key = true ->
  step schema o (key, value) = Returns o.
Proof.
  intros Hfields Hign. unfold ignored in Hign.
  apply andb_prop in Hign as [Hign Hown]. apply andb_prop in Hign as [Hdot Hinh].
  apply negb_true_iff in Hdot. apply negb_true_iff in Hinh.
  cbn [step]. destruct (value =? ""); [reflexivity|].
  rewrite (parseParams_fields _ _ Hfields). unfold route. rewrite Hdot. cbv zeta.
  destruct (own fields (strip_marker key)); [discriminate|].
  rewrite Hinh. reflexivity.
Qed.

Lemma run_ignored (schema : ZodType) (fields : list (string * ZodType))
  (entries : list (string * string)) :
  fields_of schema = Some fields ->
  forall o,
    run schema (filter (fun entry => negb (ignored fields (fst entry))) entries) o
    = run schema entries o.
Proof.
  intro Hfields. unfold run.
  induction entries as [|[key value] entries IH]; intro o; [reflexivity|].
  cbn [filter fst]. destruct (ignored fields key) eqn:Hign; cbn [negb for_of].
  - rewrite (step_ignored schema fields o key value Hfields Hign). cbn [bind]. apply IH.
  - destruct (step schema o (key, value)); cbn [bind];
      [apply IH | reflexivity | reflexivity].
Qed.

(** Against a schema that resolves to a field mapping, and in an input none
    of whose keys leads into [Object.prototype], the pairs whose key has no
    dot and names neither a field nor a member of [Object.prototype] do not
    matter: the coerced output and the result of the parse call are those
    of the input without them, wherever they stand in it. *)
Theorem unplaced_pairs_do_not_matter (schema : Schema)
  (fields : list (string * ZodType)) (entries : list (string * string)) :
  fields_of (zod schema) = Some fields ->
  (forall key value, In (key, value) entries -> value <> "" ->
     reaches_prototype key = false) ->
  coerce entries (zod schema)
  = coerce (filter (fun entry => negb (ignored fields (fst entry))) entries) (zod schema) /\
  getParamsInternal entries schema
  = getParamsInternal (filter (fun entry => negb (ignored fields (fst entry))) entries)
      schema.
Proof.
  intros Hfields _.
  assert (Hco : coerce entries (zod schema)
                = coerce (filter (fun entry => negb (ignored fields (fst entry))) entries)
                    (zod schema)).
  { unfold coerce. symmetry. apply run_ignored, Hfields. }
  split; [exact Hco|]. unfold getParamsInternal. rewrite Hco. reflexivity.
Qed.

Lemma coerceLeaf_handled (leaf : ZodType) (value : string) :
  handled leaf = false -> coerceLeaf leaf value = None.
Proof. destruct leaf; cbn [handled coerceLeaf]; (discriminate || reflexivity). Qed.

(** A pair whose key, without a dot, names a field that ends at a node for
    which the engine has no coercion (an Object, a Union, a Nullable, ...)
    makes the whole parse call throw the error of line 238, naming that node
    and the field; neither the rest of the input nor the validator is
    looked at. *)
Theorem field_without_coercion_throws (schema : Schema)
  (fields : list (string * ZodType)) (key value : string) (def : ZodType)
  (entries : list (string * string)) :
  fields_of (zod schema) = Some fields ->
  value <> "" ->
  includes "." key = false ->
  own fields (strip_marker key) = Some def ->
  handled (leaf_of def) = false ->
  getParamsInternal ((key, value) :: entries) schema
  = Throws (Error ("Unexpected type " ++ typeName_of (leaf_of def)
                   ++ " for key " ++ strip_marker key)).
Proof.
  intros Hfields Hvalue Hdot Hdef Hleaf.
  unfold getParamsInternal, coerce, run. cbn [for_of step].
  apply String.eqb_neq in Hvalue. rewrite Hvalue.
  rewrite (parseParams_fields _ _ Hfields). unfold route. rewrite Hdot. cbv zeta.
  rewrite Hdef, processDef_eq, (coerceLeaf_handled _ _ Hleaf). reflexivity.
Qed.

(** A text that the host does not read as a number is stored as it is under
    a Number field (through Optional, Default and Effects wrappers), for the
    validator to judge; it is not dropped. *)
Theorem unread_number_is_kept (o : Obj) (shape : list (string * ZodType))
  (key value : string) (def : ZodType) :
  includes "." key = false ->
  own shape (strip_marker key) = Some def ->
  leaf_of def = ZodNumber ->
  through_array def = false ->
  Number value = None ->
  inherited (strip_marker key) = false ->
  is_array (own o (strip_marker key)) = false ->
  parseParams o (ZodObject shape) key value
  = Returns (set o (strip_marker key) (VString value)).
Proof.
  intros Hdot Hdef Hleaf Hscalar Hnan Hinh Hna.
  rewrite parseParams_ZodObject. unfold route. rewrite Hdot. cbv zeta.
  rewrite Hdef, processDef_eq, Hleaf, Hscalar. cbn [coerceLeaf]. rewrite Hnan.
  apply store_scalar; assumption.
Qed.

(** A dotted key cannot go below a field that is not an Object (an Optional
    or Default around an Object included): when the rest of the key names no
    member of that node, the pair is dropped, leaving the mapping under the
    field as it was, or an empty one where the output had none. *)
Theorem nothing_below_closed_field (o : Obj) (shape : list (string * ZodType))
  (a rest value : string) (field : ZodType) :
  includes "." a = false ->
  inherited a = false ->
  own shape a = Some field ->
  closed_node field = true ->
  includes "." rest = false ->
  zod_member field (strip_marker rest) = false ->
  inherited (strip_marker rest) = false ->
  own o a = None \/ (exists props, own o a = Some (VObject props)) ->
  parseParams o (ZodObject shape) (a ++ "." ++ rest) value
  = Returns (match own o a with
             | None => set o a (VObject [])
             | Some _ => o
             end).
Proof.
  intros Ha Hinh Hfield Hclosed Hrest Hmember Hrinh Ho.
  assert (Hbelow : forall props, parseParams props field rest value = Returns props).
  { intro props. destruct field; try discriminate Hclosed;
      cbn [parseParams instanceof_ZodObject instanceof_ZodEffects orb];
      rewrite Hrest; unfold leaf_instance; cbv zeta; rewrite Hmember, Hrinh;
      reflexivity. }
  rewrite parseParams_ZodObject. unfold route.
  rewrite includes_dot_app, Ha.
  replace (includes "." ("." ++ rest)) with true by reflexivity. cbn [orb].
  rewrite (split_dot_app _ _ Ha).
  unfold get. rewrite Hinh.
  destruct Ho as [Ho|[props Ho]]; rewrite Ho; unfold descend, in_shape;
    rewrite Hfield, join_split, Hbelow; cbn [bind].
  - rewrite set_set. reflexivity.
  - rewrite (set_own_same _ _ _ Ho). reflexivity.
Qed.

End Unplaced.

(* ================================================================== *)
(** ** The properties of the output *)

Section Output.

Context {H : Host}.

Lemma stays_set (o : Obj) (key k : string) (v : Value) :
  own o k <> None -> own (set o key v) k <> None.
Proof.
  intro Hk. destruct (String.eqb_spec k key) as [->|Hne].
  - rewrite own_set_same. discriminate.
  - rewrite (own_set_other _ _ _ _ Hne). exact Hk.
Qed.

Lemma stays_assign (o o1 : Obj) (key k : string) (v : Value) :
  assign o key v = Returns o1 -> own o k <> None -> own o1 k <> None.
Proof.
  unfold assign. destruct (own o key).
  - intros [= <-]. apply stays_set.
  - destruct (key =? "__proto__").
    + destruct v; try discriminate; intros [= <-] Hk; exact Hk.
    + intros [= <-]. apply stays_set.
Qed.

Lemma stays_store (o o1 : Obj) (key k : string) (v : Value) :
  store o key v = Returns o1 -> own o k <> None -> own o1 k <> None.
Proof.
  unfold store. destruct (get o key) as [[]| |]; try apply stays_assign.
  intros [= <-]. apply stays_set.
Qed.

Lemma stays_init_array (o : Obj) (key k : string) :
  own o k <> None -> own (init_array o key) k <> None.
Proof.
  unfold init_array. destruct (get o key); try (intro Hk; exact Hk). apply stays_set.
Qed.

Lemma stays_processDef (def : ZodType) (o o1 : Obj) (key value k : string) :
  processDef def o key value = Returns o1 -> own o k <> None -> own o1 k <> None.
Proof.
  rewrite processDef_eq. destruct (coerceLeaf (leaf_of def) value); [|discriminate].
  intros Hst Hk. apply (stays_store _ _ _ _ _ Hst).
  destruct (through_array def); [apply stays_init_array|]; exact Hk.
Qed.

Lemma stays_descend (recur : Obj -> ZodType -> string -> string -> Outcome Obj)
  (shape : Shape) (parentProp : string) (rest : list string) (value : string)
  (o0 o1 : Obj) (child : Value) (k : string) :
  descend recur shape parentProp rest value o0 child = Returns o1 ->
  own o0 k <> None -> own o1 k <> None.
Proof.
  unfold descend. destruct (in_shape shape parentProp).
  - destruct shape as [fields|z]; [|discriminate].
    destruct (own fields parentProp) as [field|]; [|discriminate].
    destruct child; try discriminate. intro Hd.
    apply bind_returns_inv in Hd as (props' & _ & [= <-]). apply stays_set.
  - intros [= <-] Hk. exact Hk.
Qed.

Lemma stays_route (recur : Obj -> ZodType -> string -> string -> Outcome Obj)
  (shape : Shape) (o o1 : Obj) (key value k : string) :
  route recur shape o key value = Returns o1 -> own o k <> None -> own o1 k <> None.
Proof.
  unfold route. destruct (includes "." key).
  - destruct (split dot key) as [|parentProp rest].
    + intros [= <-] Hk. exact Hk.
    + destruct (get o parentProp) as [child| |]; [|discriminate|].
      * apply stays_descend.
      * intros Hd Hk. apply (stays_descend _ _ _ _ _ _ _ _ _ Hd), stays_set, Hk.
  - cbv zeta. destruct shape as [fields|z].
    + destruct (own fields (strip_marker key)) as [def|]; [apply stays_processDef|].
      destruct (inherited (strip_marker key)); [discriminate|].
      intros [= <-] Hk. exact Hk.
    + destruct (zod_member z (strip_marker key)); [discriminate|].
      destruct (inherited (strip_marker key)); [discriminate|].
      intros [= <-] Hk. exact Hk.
Qed.

Lemma stays_parseParams (schema : ZodType) (key value k : string) :
  forall o o1,
    parseParams o schema key value = Returns o1 -> own o k <> None -> own o1 k <> None.
Proof.
  induction schema using ZodType_nested_ind; intros o o1;
    try (rewrite parseParams_eq;
         cbn [find_shape instanceof_ZodObject instanceof_ZodEffects orb bind];
         apply stays_route).
  - rewrite parseParams_ZodEffects. apply IHschema.
  - rewrite parseParams_ZodObject_null. discriminate.
  - rewrite parseParams_ZodUnion. revert o.
    induction H0 as [|option options Hopt _ IH]; intro o; cbn [for_of].
    + intros [= <-] Hk. exact Hk.
    + intros Hr Hk. apply bind_returns_inv in Hr as (o' & Hstep & Hrest).
      exact (IH _ Hrest (Hopt _ _ Hstep Hk)).
Qed.

(** Routing a pair, when it returns, has changed at most one property of
    the output, its target: the first segment of a dotted key, or the key
    without its first "[]" when it has no dot.  Every other property holds
    what it held, or is absent as it was, and no property was removed. *)
Theorem pair_touches_only_its_target (schema : ZodType) (key value : string) :
  forall o o',
    parseParams o schema key value = Returns o' ->
    (forall k, k <> target key -> own o' k = own o k) /\
    (forall k, own o k <> None -> own o' k <> None).
Proof.
  intros o o' Hr. split.
  - intros k Hne. exact (parseParams_frame schema key value k Hne o o' Hr).
  - intro k. exact (stays_parseParams schema key value k o o' Hr).
Qed.


End Output.

(* ================================================================== *)
(** ** The options of a Union *)

Section Unions.

Context {H : Host}.

Lemma parseParams_lacks (option : ZodType) (o : Obj) (key value : string) :
  includes "." key = false ->
  inherited (strip_marker key) = false ->
  lacks (strip_marker key) option = true ->
  parseParams o option key value = Returns o.
Proof.
  intros Hdot Hinh Hlacks. unfold lacks in Hlacks.
  destruct (fields_of option) as [fields|] eqn:Hfields; [|discriminate].
  rewrite (parseParams_fields _ _ Hfields). unfold route. rewrite Hdot. cbv zeta.
  destruct (own fields (strip_marker key)); [discriminate|].
  rewrite Hinh. reflexivity.
Qed.

(** Under a Union, a pair whose key has no dot and whose name is no member
    of [Object.prototype] is routed by the options that have its field: the
    options that resolve to a field mapping without that field can be left
    out of the Union without changing the outcome.  (Under a name that
    [Object.prototype] has, an option without the field throws.) *)
Theorem union_skips_options_without_field (options : list ZodType) (key value : string) :
  includes "." key = false ->
  inherited (strip_marker key) = false ->
  forall o,
    parseParams o (ZodUnion options) key value
    = parseParams o
        (ZodUnion (filter (fun option => negb (lacks (strip_marker key) option)) options))
        key value.
Proof.
  intros Hdot Hinh. induction options as [|option options IH]; intro o; [reflexivity|].
  rewrite !parseParams_ZodUnion in *. cbn [filter].
  destruct (lacks (strip_marker key) option) eqn:Hlacks; cbn [negb for_of].
  - rewrite (parseParams_lacks option o key value Hdot Hinh Hlacks). cbn [bind].
    rewrite <- parseParams_ZodUnion, IH, parseParams_ZodUnion. reflexivity.
  - destruct (parseParams o option key value) as [o1| |]; cbn [bind]; try reflexivity.
    rewrite <- !parseParams_ZodUnion. apply IH.
Qed.


End Unions.

(* ================================================================== *)
(** ** No empty string in the output *)

Section NoEmpty.

Context {H : Host}.

Lemma clean_set (o : Obj) (k : string) (v : Value) :
  holds_empty (VObject o) = false -> holds_empty v = false ->
  holds_empty (VObject (set o k v)) = false.
Proof.
  cbn [holds_empty]. intros Ho Hv.
  induction o as [|[k' v'] o IH]; cbn [set existsb snd].
  - rewrite Hv. reflexivity.
  - cbn [existsb snd] in Ho. apply orb_false_elim in Ho as [Hv' Ho].
    destruct (String.eqb k' k); cbn [existsb snd].
    + rewrite Hv, Ho. reflexivity.
    + rewrite Hv', (IH Ho). reflexivity.
Qed.

Lemma clean_own (o : Obj) (k : string) (v : Value) :
  holds_empty (VObject o) = false -> own o k = Some v -> holds_empty v = false.
Proof.
  cbn [holds_empty]. induction o as [|[k' v'] o IH]; cbn [own existsb snd]; [discriminate|].
  intro Ho. apply orb_false_elim in Ho as [Hv' Ho].
  destruct (String.eqb k' k); [intros [= <-]; exact Hv' | exact (IH Ho)].
Qed.

Lemma clean_coerceLeaf (leaf : ZodType) (value : string) (v : Value) :
  value <> "" -> coerceLeaf leaf value = Some v -> holds_empty v = false.
Proof.
  intro Hvalue. apply String.eqb_neq in Hvalue.
  destruct leaf; cbn [coerceLeaf]; try discriminate; intros [= <-];
    cbn [holds_empty]; try exact Hvalue; try reflexivity.
  - destruct (Number value); [reflexivity | exact Hvalue].
  - destruct (Date_parse value); [reflexivity | exact Hvalue].
Qed.

Lemma clean_assign (o o1 : Obj) (key : string) (v : Value) :
  holds_empty (VObject o) = false -> holds_empty v = false ->
  assign o key v = Returns o1 -> holds_empty (VObject o1) = false.
Proof.
  intros Ho Hv. unfold assign. destruct (own o key).
  - intros [= <-]. apply clean_set; assumption.
  - destruct (key =? "__proto__").
    + destruct v; try discriminate; intros [= <-]; exact Ho.
    + intros [= <-]. apply clean_set; assumption.
Qed.

Lemma clean_store (o o1 : Obj) (key : string) (v : Value) :
  holds_empty (VObject o) = false -> holds_empty v = false ->
  store o key v = Returns o1 -> holds_empty (VObject o1) = false.
Proof.
  intros Ho Hv. unfold store, get.
  destruct (own o key) as [[]|] eqn:Hown; try (apply clean_assign; assumption).
  - intros [= <-]. apply clean_set; [exact Ho|].
    pose proof (clean_own _ _ _ Ho Hown) as Hitems. cbn [holds_empty] in *.
    rewrite existsb_app, Hitems. cbn [existsb]. rewrite Hv. reflexivity.
  - destruct (inherited key); apply clean_assign; assumption.
Qed.

Lemma clean_init_array (o : Obj) (key : string) :
  holds_empty (VObject o) = false -> holds_empty (VObject (init_array o key)) = false.
Proof.
  intro Ho. unfold init_array. destruct (get o key); try exact Ho.
  apply clean_set; [exact Ho | reflexivity].
Qed.

Lemma clean_processDef (def : ZodType) (o o1 : Obj) (key value : string) :
  value <> "" -> holds_empty (VObject o) = false ->
  processDef def o key value = Returns o1 -> holds_empty (VObject o1) = false.
Proof.
  intros Hvalue Ho. rewrite processDef_eq.
  destruct (coerceLeaf (leaf_of def) value) as [v|] eqn:Hleaf; [|discriminate].
  pose proof (clean_coerceLeaf _ _ _ Hvalue Hleaf) as Hv.
  destruct (through_array def); apply clean_store; try assumption.
  apply clean_init_array, Ho.
Qed.

Lemma clean_route (recur : Obj -> ZodType -> string -> string -> Outcome Obj)
  (shape : Shape) (o o1 : Obj) (key value : string) :
  value <> "" ->
  (forall fields field, shape = ShapeRecord fields -> In field fields ->
     forall props key props',
       holds_empty (VObject props) = false ->
       recur props (snd field) key value = Returns props' ->
       holds_empty (VObject props') = false) ->
  holds_empty (VObject o) = false ->
  route recur shape o key value = Returns o1 ->
  holds_empty (VObject o1) = false.
Proof.
  intros Hvalue Hrec Ho. unfold route. destruct (includes "." key).
  - destruct (split dot key) as [|parentProp rest]; [intros [= <-]; exact Ho|].
    assert (Hd : forall o0 child,
      holds_empty (VObject o0) = false -> holds_empty child = false ->
      descend recur shape parentProp rest value o0 child = Returns o1 ->
      holds_empty (VObject o1) = false).
    { intros o0 child Ho0 Hchild. unfold descend.
      destruct (in_shape shape parentProp); [|intros [= <-]; exact Ho0].
      destruct shape as [fields|z]; [|discriminate].
      destruct (own fields parentProp) as [field|] eqn:Hfield; [|discriminate].
      destruct child; try discriminate. intro Hrun.
      apply bind_returns_inv in Hrun as (props' & Hprops & [= <-]).
      apply clean_set; [exact Ho0|].
      exact (Hrec fields (parentProp, field) eq_refl (In_own _ _ _ Hfield)
               props (join "." rest) props' Hchild Hprops). }
    unfold get. destruct (own o parentProp) as [child|] eqn:Hown.
    + apply Hd; [exact Ho | exact (clean_own _ _ _ Ho Hown)].
    + destruct (inherited parentProp); [discriminate|].
      apply Hd; [apply clean_set; [exact Ho | reflexivity] | reflexivity].
  - cbv zeta. destruct shape as [fields|z].
    + destruct (own fields (strip_marker key)); [apply clean_processDef; assumption|].
      destruct (inherited (strip_marker key)); [discriminate | intros [= <-]; exact Ho].
    + destruct (zod_member z (strip_marker key)); [discriminate|].
      destruct (inherited (strip_marker key)); [discriminate | intros [= <-]; exact Ho].
Qed.

Lemma clean_parseParams (schema : ZodType) (value : string) :
  value <> "" ->
  forall o key o',
    holds_empty (VObject o) = false ->
    parseParams o schema key value = Returns o' ->
    holds_empty (VObject o') = false.
Proof.
  intro Hvalue.
  induction schema using ZodType_nested_ind; intros o key o' Ho;
    try (rewrite parseParams_eq;
         cbn [find_shape instanceof_ZodObject instanceof_ZodEffects orb bind];
         apply (clean_route _ _ _ _ _ _ Hvalue); [discriminate | exact Ho]).
  - rewrite parseParams_ZodEffects. apply IHschema, Ho.
  - rewrite parseParams_ZodObject. apply (clean_route _ _ _ _ _ _ Hvalue); [|exact Ho].
    intros fields field [= <-] Hin. rewrite Forall_forall in H0. exact (H0 field Hin).
  - rewrite parseParams_ZodObject_null. discriminate.
  - rewrite parseParams_ZodUnion. revert o Ho.
    induction H0 as [|option options Hopt _ IH]; intros o Ho; cbn [for_of].
    + intros [= <-]. exact Ho.
    + intro Hr. apply bind_returns_inv in Hr as (o1 & Hstep & Hrest).
      exact (IH o1 (Hopt _ _ _ Ho Hstep) Hrest).
Qed.

(** The coerced output holds no empty string, at any depth: not as a field,
    not as an element of a sequence, not inside a nested mapping. *)
Theorem output_holds_no_empty_string (entries : list (string * string))
  (schema : ZodType) (o : Obj) :
  coerce entries schema = Returns o -> holds_empty (VObject o) = false.
Proof.
  unfold coerce, run.
  assert (Hrun : forall entries o0 o1,
            holds_empty (VObject o0) = false ->
            for_of (step schema) entries o0 = Returns o1 ->
            holds_empty (VObject o1) = false).
  { clear. induction entries as [|[key value] entries IH]; intros o0 o1 Ho0; cbn [for_of].
    - intros [= <-]. exact Ho0.
    - intro Hr. apply bind_returns_inv in Hr as (o' & Hstep & Hrest).
      apply (IH o' o1); [|exact Hrest]. cbn [step] in Hstep.
      destruct (String.eqb_spec value "") as [|Hvalue]; [injection Hstep as <-; exact Ho0|].
      exact (clean_parseParams schema value Hvalue o0 key o' Ho0 Hstep). }
  apply Hrun. reflexivity.
Qed.

End NoEmpty.

(* ================================================================== *)
(** ** The request wrappers *)

(** The OrFail variants for search parameters and for form data are their
    plain variants followed by the escalation of a Failure: the data of a
    Success is returned, a Failure is thrown as the JSON text of its error
    mapping, and what the plain variant throws (an invalid URL, a rejected
    [formData()], a throw of the engine) is thrown unchanged. *)
Theorem request_wrappers_escalate {H : Host}
  (searchParams : string -> option (list (string * string)))
  (request : Request) (schema : Schema) :
  getSearchParamsOrFail searchParams request schema
  = escalate (getSearchParams searchParams request schema) /\
  getFormDataOrFail request schema = escalate (getFormData request schema) /\
  (forall data,
     getSearchParams searchParams request schema = Returns (Success data) ->
     getSearchParamsOrFail searchParams request schema = Returns data) /\
  (forall errors,
     getFormData request schema = Returns (Failure errors) ->
     getFormDataOrFail request schema = Throws (Error (JSON_stringify errors))) /\
  (forall e,
     formData request = Throws e ->
     getFormData request schema = Throws e /\
     getFormDataOrFail request schema = Throws e) /\
  (searchParams (url request) = None ->
   getSearchParams searchParams request schema = Throws (TypeError "Invalid URL") /\
   getSearchParamsOrFail searchParams request schema = Throws (TypeError "Invalid URL")).
Proof.
  assert (Hsearch : getSearchParamsOrFail searchParams request schema
                    = escalate (getSearchParams searchParams request schema)).
  { unfold getSearchParamsOrFail, getSearchParams, escalate.
    destruct (new_URL searchParams (url request)); reflexivity. }
  assert (Hform : getFormDataOrFail request schema
                  = escalate (getFormData request schema)).
  { unfold getFormDataOrFail, getFormData, escalate.
    destruct (formData request); reflexivity. }
  split; [exact Hsearch|]. split; [exact Hform|]. split; [|split; [|split]].
  - intros data Hplain. rewrite Hsearch, Hplain. reflexivity.
  - intros errors Hplain. rewrite Hform, Hplain. reflexivity.
  - intros e He. rewrite Hform. unfold getFormData. rewrite He. split; reflexivity.
  - intro Hurl. rewrite Hsearch. unfold getSearchParams, new_URL. rewrite Hurl.
    split; reflexivity.
Qed.

Lemma request_wrappers_escalate_example :
  getSearchParams (H := TestHost) example_searchParams
    {| url := "https://example.com/?name=Ada&unexpected=x"; formData := Escapes |}
    name_schema
  = Returns (Success (VObject [("name", VString "Ada")])) /\
  getSearchParamsOrFail (H := TestHost) example_searchParams
    {| url := "https://example.com/?name=Ada&unexpected=x"; formData := Escapes |}
    name_schema
  = Returns (VObject [("name", VString "Ada")]).
Proof.
  split; [reflexivity|].
  destruct (request_wrappers_escalate (H := TestHost) example_searchParams
              {| url := "https://example.com/?name=Ada&unexpected=x"; formData := Escapes |}
              name_schema) as (_ & _ & Hdata & _).
  exact (Hdata _ eq_refl).
Defined.

(* ================================================================== *)
(** ** Input attributes *)

Section InputPropsFacts.

Variable isOptional : ZodDef -> bool.

(** The attributes of a field are those of the node under its Array and
    Optional wrappers, under the name asked for; the wrappers count for
    nothing, not even for [required]: an Optional around a node that does not
    accept [undefined] itself is reported as required. *)
Theorem getInputProps_looks_under_wrappers (name0 : string) (def : ZodDef) :
  getInputProps isOptional name0 def
  = getInputProps isOptional name0 (input_node def) /\
  name (getInputProps isOptional name0 def) = name0 /\
  (isOptional (input_node def) = false ->
   required (getInputProps isOptional name0 def) = Some true) /\
  (isOptional (input_node def) = true ->
   required (getInputProps isOptional name0 def) = None).
Proof.
  induction def; cbn [getInputProps input_node]; try exact IHdef;
    (split; [reflexivity|]; split; [reflexivity|];
     split; cbn [required inputProps]; intros ->; reflexivity).
Qed.

Lemma when_truthy_some (n : option JsNumber) (m : JsNumber) :
  when_truthy n = Some m -> n = Some m /\ truthy m = true.
Proof.
  destruct n as [n|]; cbn [when_truthy]; [|discriminate].
  destruct (truthy n) eqn:Ht; [|discriminate]. intros [= <-]. split; [reflexivity | exact Ht].
Qed.

Lemma when_finite_some (n : option JsNumber) (m : JsNumber) :
  when_finite n = Some m -> n = Some m /\ truthy m = true /\ isFinite m = true.
Proof.
  destruct n as [n|]; cbn [when_finite]; [|discriminate].
  destruct (truthy n && isFinite n) eqn:Ht; [|discriminate].
  apply andb_prop in Ht as [Ht Hf]. intros [= <-]. repeat split; assumption.
Qed.

(** What [getInputProps] never reports: a [type] outside the six it knows,
    [required: false], a bound or a length that is zero or NaN, a length
    that is not finite, an empty pattern, a [min] or [max] on anything but a
    number input, a length or a pattern on a number, checkbox or date
    input. *)
Theorem getInputProps_reports (name0 : string) (def : ZodDef) :
  In (type (getInputProps isOptional name0 def))
     ["text"; "email"; "url"; "number"; "checkbox"; "date"] /\
  (required (getInputProps isOptional name0 def) = None \/
   required (getInputProps isOptional name0 def) = Some true) /\
  (forall n, min (getInputProps isOptional name0 def) = Some n \/
             max (getInputProps isOptional name0 def) = Some n ->
             truthy n = true /\
             type (getInputProps isOptional name0 def) = "number") /\
  (forall n, minLength (getInputProps isOptional name0 def) = Some n \/
             maxLength (getInputProps isOptional name0 def) = Some n ->
             truthy n = true /\ isFinite n = true /\
             In (type (getInputProps isOptional name0 def)) ["text"; "email"; "url"]) /\
  (forall source, pattern (getInputProps isOptional name0 def) = Some source ->
             source <> "" /\
             In (type (getInputProps isOptional name0 def)) ["text"; "email"; "url"]).
Proof.
  induction def; cbn [getInputProps]; try exact IHdef;
    cbn [inputProps type required min max minLength maxLength pattern
         when_truthy when_finite when_nonempty].
  - (* ZodString *)
    assert (Htype : In (if isEmail then "email" else if isURL then "url" else "text")
                       ["text"; "email"; "url"]).
    { destruct isEmail; [right; left; reflexivity|].
      destruct isURL; [right; right; left; reflexivity | left; reflexivity]. }
    split; [|split; [|split; [|split]]].
    + destruct Htype as [<-|[<-|[<-|[]]]]; cbn; auto.
    + destruct (isOptional _); [left | right]; reflexivity.
    + intros n [Hn|Hn]; discriminate Hn.
    + intros n [Hn|Hn]; apply when_finite_some in Hn as (_ & Ht & Hf);
        (split; [exact Ht | split; [exact Hf | exact Htype]]).
    + intros source Hs. split; [|exact Htype].
      destruct regex as [r|]; cbn [when_nonempty] in Hs; [|discriminate].
      unfold Boolean in Hs. destruct (String.eqb_spec r "") as [|Hne]; [discriminate|].
      injection Hs as <-. exact Hne.
  - (* ZodNumber *)
    split; [right; right; right; left; reflexivity|].
    split; [destruct (isOptional _); [left | right]; reflexivity|].
    split; [|split].
    + intros n [Hn|Hn]; apply when_truthy_some in Hn as [_ Ht]; (split; [exact Ht | reflexivity]).
    + intros n [Hn|Hn]; discriminate Hn.
    + intros source Hs. discriminate Hs.
  - split; [right; right; right; right; left; reflexivity|].
    split; [destruct (isOptional _); [left | right]; reflexivity|].
    split; [|split]; [intros n [Hn|Hn]; discriminate Hn
                     | intros n [Hn|Hn]; discriminate Hn | intros source Hs; discriminate Hs].
  - split; [right; right; right; right; right; left; reflexivity|].
    split; [destruct (isOptional _); [left | right]; reflexivity|].
    split; [|split]; [intros n [Hn|Hn]; discriminate Hn
                     | intros n [Hn|Hn]; discriminate Hn | intros source Hs; discriminate Hs].
  - split; [left; reflexivity|].
    split; [destruct (isOptional _); [left | right]; reflexivity|].
    split; [|split]; [intros n [Hn|Hn]; discriminate Hn
                     | intros n [Hn|Hn]; discriminate Hn | intros source Hs; discriminate Hs].
  - split; [left; reflexivity|].
    split; [destruct (isOptional _); [left | right]; reflexivity|].
    split; [|split]; [intros n [Hn|Hn]; discriminate Hn
                     | intros n [Hn|Hn]; discriminate Hn | intros source Hs; discriminate Hs].
Qed.

(** [useFormInputProps(schema, defaults)(key, options)] returns exactly for
    the own fields of an Object schema, and then the attributes of that
    field under the name [key]; it throws "no such key" exactly for a key
    that is neither a field nor a member of [Object.prototype]; and neither
    the default options nor the options of the call change its outcome. *)
Theorem useFormInputProps_outcomes {Options : Type} (schema : ZodDef)
  (defaults : Options) (key : string) (options : Options) :
  (forall props,
     useFormInputProps isOptional schema defaults key options = Returns props <->
     exists shape def,
       schema = DefObject shape /\ own shape key = Some def /\
       props = getInputProps isOptional key def) /\
  (useFormInputProps isOptional schema defaults key options
   = Throws (Error ("no such key: " ++ key)) <->
   exists shape,
     schema = DefObject shape /\ own shape key = None /\ inherited key = false) /\
  (forall (Options' : Type) (defaults' options' : Options'),
     useFormInputProps isOptional schema defaults' key options'
     = useFormInputProps isOptional schema defaults key options).
Proof.
  split; [|split].
  - intro props. unfold useFormInputProps; unfold get. split.
    + destruct schema; try discriminate.
      destruct (own shape key) as [def|] eqn:Hown.
      * intros [= <-]. exists shape, def. repeat split; assumption.
      * destruct (inherited key); discriminate.
    + intros (shape & def & -> & Hown & ->). rewrite Hown. reflexivity.
  - unfold useFormInputProps; unfold get. split.
    + destruct schema; try discriminate.
      destruct (own shape key) as [def|] eqn:Hown; [discriminate|].
      destruct (inherited key) eqn:Hinh; [discriminate|].
      intros _. exists shape. repeat split; assumption.
    + intros (shape & -> & Hown & Hinh). rewrite Hown, Hinh. reflexivity.
  - reflexivity.
Qed.

End InputPropsFacts.

Lemma getInputProps_looks_under_wrappers_email :
  optional_wrapper
    (input_node (DefOptional (DefString true false (Some (Finite 0)) (Some (Finite 80)) None)))
  = false /\
  getInputProps optional_wrapper "email"
    (DefOptional (DefString true false (Some (Finite 0)) (Some (Finite 80)) None))
  = {| name := "email"; type := "email"; required := Some true;
       min := None; max := None;
       minLength := None; maxLength := Some (Finite 80); pattern := None |} /\
  required (getInputProps optional_wrapper "email"
              (DefOptional (DefString true false (Some (Finite 0)) (Some (Finite 80)) None)))
  = Some true.
Proof.
  split; [reflexivity|]. split; [reflexivity|].
  destruct (getInputProps_looks_under_wrappers optional_wrapper "email"
              (DefOptional (DefString true false (Some (Finite 0)) (Some (Finite 80)) None)))
    as (_ & _ & Hrequired & _).
  exact (Hrequired eq_refl).
Defined.

Lemma useFormInputProps_outcomes_signup :
  useFormInputProps optional_wrapper signup tt "age" tt
  = Returns {| name := "age"; type := "number"; required := Some true;
               min := None; max := Some (Finite 120);
               minLength := None; maxLength := None; pattern := None |} /\
  useFormInputProps optional_wrapper signup tt "phone" tt
  = Throws (Error "no such key: phone").
Proof.
  destruct (useFormInputProps_outcomes optional_wrapper signup tt "age" tt)
    as (Hreturns & _ & _).
  destruct (useFormInputProps_outcomes optional_wrapper signup tt "phone" tt)
    as (_ & Hthrows & _).
  split.
  - apply Hreturns. exists (match signup with DefObject shape => shape | _ => [] end).
    eexists. split; [reflexivity|]. split; reflexivity.
  - apply Hthrows. exists (match signup with DefObject shape => shape | _ => [] end).
    split; [reflexivity|]. split; reflexivity.
Defined.

(* ================================================================== *)
(** ** The properties above on the examples *)

Lemma unplaced_pairs_do_not_matter_name :
  fields_of (zod name_schema) = Some [("name", ZodString)] /\
  filter (fun entry => negb (ignored [("name", ZodString)] (fst entry)))
    [("unexpected", "x"); ("name", "Ada"); ("other[]", "y")]
  = [("name", "Ada")] /\
  getParamsInternal [("unexpected", "x"); ("name", "Ada"); ("other[]", "y")] name_schema
  = getParamsInternal [("name", "Ada")] name_schema.
Proof.
  assert (Hkeys : forall key value,
            In (key, value) [("unexpected", "x"); ("name", "Ada"); ("other[]", "y")] ->
            value <> "" -> reaches_prototype key = false).
  { intros key value Hin _. repeat (destruct Hin as [[= <- <-]|Hin]; [reflexivity|]).
    destruct Hin. }
  split; [reflexivity|]. split; [reflexivity|].
  exact (proj2 (unplaced_pairs_do_not_matter name_schema [("name", ZodString)]
                  [("unexpected", "x"); ("name", "Ada"); ("other[]", "y")] eq_refl
                  Hkeys)).
Defined.

Lemma field_without_coercion_throws_address :
  "x" <> "" /\
  own [("name", ZodString); ("tags", ZodArray ZodNumber);
       ("address", ZodObject [("city", ZodString)])] (strip_marker "address")
  = Some (ZodObject [("city", ZodString)]) /\
  getParamsInternal [("address", "x"); ("name", "Ada")] profile_schema
  = Throws (Error "Unexpected type ZodObject for key address").
Proof.
  assert (Hvalue : "x" <> "") by discriminate.
  split; [exact Hvalue|]. split; [reflexivity|].
  exact (field_without_coercion_throws profile_schema _ "address" "x"
           (ZodObject [("city", ZodString)]) [("name", "Ada")]
           eq_refl Hvalue eq_refl eq_refl eq_refl).
Defined.

Lemma unread_number_is_kept_age :
  Number (Host := TestHost) "abc" = None /\
  parseParams (H := TestHost) [] (ZodObject [("age", ZodOptional ZodNumber)]) "age" "abc"
  = Returns [("age", VString "abc")].
Proof.
  split; [reflexivity|].
  exact (unread_number_is_kept (H := TestHost) [] [("age", ZodOptional ZodNumber)]
           "age" "abc" (ZodOptional ZodNumber)
           eq_refl eq_refl eq_refl eq_refl eq_refl eq_refl eq_refl).
Defined.

Lemma nothing_below_closed_field_address :
  closed_node (ZodOptional (ZodObject [("city", ZodString)])) = true /\
  zod_member (Host := TestHost) (ZodOptional (ZodObject [("city", ZodString)]))
    (strip_marker "city") = false /\
  parseParams (H := TestHost) []
    (ZodObject [("address", ZodOptional (ZodObject [("city", ZodString)]))])
    "address.city" "Boston"
  = Returns [("address", VObject [])].
Proof.
  split; [reflexivity|]. split; [reflexivity|].
  exact (nothing_below_closed_field (H := TestHost) []
           [("address", ZodOptional (ZodObject [("city", ZodString)]))]
           "address" "city" "Boston" (ZodOptional (ZodObject [("city", ZodString)]))
           eq_refl eq_refl eq_refl eq_refl eq_refl eq_refl eq_refl (or_introl eq_refl)).
Defined.

Lemma pair_touches_only_its_target_tags :
  parseParams (H := TestHost) [("name", VString "Ada")] profile "tags[]" "1"
  = Returns [("name", VString "Ada"); ("tags", VArray [@VNumber TestHost 1])] /\
  "name" <> target "tags[]" /\
  own (A := @Value TestHost)
    [("name", VString "Ada"); ("tags", VArray [@VNumber TestHost 1])] "name"
  = own (A := @Value TestHost) [("name", VString "Ada")] "name".
Proof.
  assert (Hname : "name" <> target "tags[]") by discriminate.
  split; [reflexivity|]. split; [exact Hname|].
  exact (proj1 (pair_touches_only_its_target (H := TestHost) profile "tags[]" "1"
                  [("name", VString "Ada")]
                  [("name", VString "Ada"); ("tags", VArray [@VNumber TestHost 1])]
                  eq_refl) "name" Hname).
Defined.


Lemma union_skips_options_without_field_example :
  lacks (strip_marker "radius") (ZodObject [("kind", ZodLiteral "square"); ("side", ZodNumber)])
  = true /\
  parseParams (H := TestHost) []
    (ZodUnion [ZodObject [("kind", ZodLiteral "circle"); ("radius", ZodNumber)];
               ZodObject [("kind", ZodLiteral "square"); ("side", ZodNumber)]])
    "radius" "2"
  = parseParams (H := TestHost) []
      (ZodUnion [ZodObject [("kind", ZodLiteral "circle"); ("radius", ZodNumber)]])
      "radius" "2".
Proof.
  split; [reflexivity|].
  exact (union_skips_options_without_field (H := TestHost)
           [ZodObject [("kind", ZodLiteral "circle"); ("radius", ZodNumber)];
            ZodObject [("kind", ZodLiteral "square"); ("side", ZodNumber)]]
           "radius" "2" eq_refl eq_refl []).
Defined.


Lemma output_holds_no_empty_string_profile :
  coerce (H := TestHost) profile_input profile = Returns profile_output /\
  holds_empty (VObject profile_output) = false.
Proof.
  split; [reflexivity|].
  exact (output_holds_no_empty_string (H := TestHost) profile_input profile profile_output
           eq_refl).
Defined.
